(** * icegroup_particles: ice-group labels for cryo-EM particles

    A shallow embedding of [scripts/icegroup_particles.py] and the
    properties of its pipeline: load the particle table, group the rows
    by micrograph, label every particle from the segment image of its
    micrograph in a worker pool, write the labels back and save. *)

From Stdlib Require Import ZArith List String Ascii Bool Lia.
From Stdlib Require Import Permutation Sorted.
From Stdlib Require Import SpecFloat.
Import ListNotations.

Set Implicit Arguments.

(** ** Exceptions and the result monad *)

(** The exceptions the script can meet.  [SystemExit] is what the builtin
    [exit()] raises; [code = None] is a call without an argument.
    [OSError] stands for what writing a file can raise.
    [NotModelled] is no Python exception: it marks the places where the
    model stops following the libraries (identifiers that are not
    strings, pandas adding a row or retyping a column on assignment, a
    pool returning with an empty slot).  A run on a well-formed table
    with string identifiers whose tasks all return meets none of them
    ([main_completes]). *)
Inductive exn : Type :=
| KeyError
| IndexError
| ValueError
| OverflowError
| TypeError
| OSError
| SystemExit (code : option Z)
| NotModelled.

Inductive result (A : Type) : Type :=
| Ok (a : A)
| Raise (e : exn).

Arguments Ok {A} a.
Arguments Raise {A} e.

Definition bind {A B : Type} (c : result A) (k : A -> result B) : result B :=
  match c with
  | Ok a => k a
  | Raise e => Raise e
  end.

Declare Scope py_scope.
Delimit Scope py_scope with py.
Notation "x <- c ;; k" := (bind c (fun x => k))
  (at level 61, c at next level, right associativity) : py_scope.
Open Scope py_scope.

Definition is_ok {A : Type} (r : result A) : bool :=
  match r with Ok _ => true | Raise _ => false end.

(** ** Keys and insertion-ordered dictionaries *)

Class KeyEq (K : Type) : Type := {
  keqb : K -> K -> bool;
  keqb_spec : forall x y : K, reflect (x = y) (keqb x y)
}.

#[export] Instance string_KeyEq : KeyEq string :=
  {| keqb := String.eqb; keqb_spec := String.eqb_spec |}.

#[export] Instance nat_KeyEq : KeyEq nat :=
  {| keqb := Nat.eqb; keqb_spec := Nat.eqb_spec |}.

(** A Python [dict] (and [OrderedDict]) keeps its keys in insertion order:
    an association list without repeated keys. *)
Definition dict (K V : Type) : Type := list (K * V).

Section Dict.
Context {K V : Type} `{KeyEq K}.

Fixpoint dict_get (k : K) (d : dict K V) : option V :=
  match d with
  | [] => None
  | (k', v) :: d' => if keqb k k' then Some v else dict_get k d'
  end.

(** [d[k] = v]: the value is replaced where the key is, a new key goes
    to the end. *)
Fixpoint dict_set (k : K) (v : V) (d : dict K V) : dict K V :=
  match d with
  | [] => [(k, v)]
  | (k', v') :: d' =>
      if keqb k k' then (k', v) :: d' else (k', v') :: dict_set k v d'
  end.

Definition dict_mem (k : K) (d : dict K V) : bool :=
  match dict_get k d with Some _ => true | None => false end.

Definition dict_keys (d : dict K V) : list K := map fst d.

(** [d[k]] as an expression raises [KeyError] on a missing key. *)
Definition dict_item (k : K) (d : dict K V) : result V :=
  match dict_get k d with
  | Some v => Ok v
  | None => Raise KeyError
  end.
End Dict.

(** ** Python and NumPy numbers *)

Module PyNum.

Open Scope Z_scope.

(** A float is a [spec_float]: [S754_finite s m e] stands for
    [(-1)^s * m * 2^e]. *)
Definition isfinite (f : spec_float) : bool :=
  match f with
  | S754_zero _ | S754_finite _ _ _ => true
  | S754_infinity _ | S754_nan => false
  end.

Definition signed (s : bool) (m : positive) : Z := cond_Zopp s (Zpos m).

(** The largest integer below or equal to [(-1)^s * m * 2^e]:
    [Z.shiftl] by a negative amount is the floor division by a power of
    two. *)
Definition floor_finite (s : bool) (m : positive) (e : Z) : Z :=
  Z.shiftl (signed s m) e.

(** The integer part of [(-1)^s * m * 2^e], rounding towards zero. *)
Definition trunc_finite (s : bool) (m : positive) (e : Z) : Z :=
  cond_Zopp s (Z.shiftl (Zpos m) e).

(** Below zero; a zero of either sign is not. *)
Definition is_negative (f : spec_float) : bool :=
  match f with
  | S754_finite true _ _ | S754_infinity true => true
  | _ => false
  end.

(** [math.floor] as a mathematical function on finite floats. *)
Definition floor_of (f : spec_float) : option Z :=
  match f with
  | S754_zero _ => Some 0
  | S754_finite s m e => Some (floor_finite s m e)
  | S754_infinity _ | S754_nan => None
  end.

(** [int(f)]: truncation towards zero; [ValueError] on a NaN and
    [OverflowError] on an infinity. *)
Definition py_int (f : spec_float) : result Z :=
  match f with
  | S754_zero _ => Ok 0
  | S754_finite s m e => Ok (trunc_finite s m e)
  | S754_infinity _ => Raise OverflowError
  | S754_nan => Raise ValueError
  end.

(** [np.floor(f)] on a float: the floor as a float again.  The floor of
    a float of the format is a float of the format; it is written here
    with exponent zero where [f] has a fractional part. *)
Definition np_floor (f : spec_float) : spec_float :=
  match f with
  | S754_finite s m e =>
      if 0 <=? e then f
      else match floor_finite s m e with
           | Z0 => S754_zero s
           | Zpos p => S754_finite false p 0
           | Zneg p => S754_finite true p 0
           end
  | _ => f
  end.

Section Format.
(** The format NumPy multiplies in: [prec = 24, emax = 128] for
    float32 and [prec = 53, emax = 1024] for float64. *)
Variables prec emax : Z.

(** A Python [int] taken into the format, rounding to nearest even. *)
Definition of_int (z : Z) : spec_float :=
  binary_normalize prec emax z 0 false.

(** [f * z] for a NumPy float [f] and a Python [int] [z]. *)
Definition mul_int (f : spec_float) (z : Z) : spec_float :=
  SFmul prec emax f (of_int z).
End Format.

End PyNum.

(** [l[i]] for a Python [int] index on a list or on one axis of an array:
    a negative index counts from the end, anything outside
    [-len, len) raises [IndexError]. *)
Definition py_index {A : Type} (l : list A) (i : Z) : result A :=
  let n := Z.of_nat (List.length l) in
  let j := (if i <? 0 then i + n else i)%Z in
  if ((0 <=? j) && (j <? n))%Z
  then match nth_error l (Z.to_nat j) with
       | Some a => Ok a
       | None => Raise IndexError
       end
  else Raise IndexError.

(** [l[i] = a] at a position inside the list. *)
Fixpoint list_set {A : Type} (i : nat) (a : A) (l : list A) : list A :=
  match l, i with
  | [], _ => []
  | _ :: l', O => a :: l'
  | b :: l', S i' => b :: list_set i' a l'
  end.

(** A [for] loop whose body may raise: the state is threaded through the
    elements in order and the first exception ends the loop. *)
Fixpoint for_each {A S : Type} (body : S -> A -> result S)
    (l : list A) (s : S) : result S :=
  match l with
  | [] => Ok s
  | a :: l' => s' <- body s a ;; for_each body l' s'
  end.

(** ** The particle table *)

(** A column of a pandas [DataFrame] with its dtype. *)
Inductive column : Type :=
| StrCol (l : list string)
| FloatCol (l : list spec_float)
| IntCol (l : list Z).

(** A [DataFrame] with the default index [0 .. index - 1]: the row label
    is the row position.  Columns are kept in the order they were added. *)
Record DataFrame : Type := {
  index : nat;
  columns : dict string column
}.

(** What [starfile.read] returns for a file of several data blocks: the
    blocks by name.  For a file of one block it returns the bare table,
    on which [df["particles"]] fails: a document stands for a file only
    when it has several blocks. *)
Definition document : Type := dict string DataFrame.

Definition several_blocks (d : document) : Prop := (2 <= List.length d)%nat.

(** The values an [int64] cell can hold. *)
Definition int64 (z : Z) : bool := ((- 2 ^ 63 <=? z) && (z <? 2 ^ 63))%Z.

Definition col_length (c : column) : nat :=
  match c with
  | StrCol l => List.length l
  | FloatCol l => List.length l
  | IntCol l => List.length l
  end.

(** Every column of a frame has one cell per row. *)
Definition well_formed (t : DataFrame) : Prop :=
  Forall (fun kc => col_length (snd kc) = index t) (columns t).

(** [t[name] = z] with a scalar: the whole column becomes [z]. *)
Definition set_scalar_column (name : string) (z : Z) (t : DataFrame)
  : DataFrame :=
  {| index := index t;
     columns := dict_set name (IntCol (repeat z (index t))) (columns t) |}.

(** The labels of the rows, as the output file shows them. *)
Definition labels_of (t : DataFrame) : option (list Z) :=
  match dict_get "ibIceGroup"%string (columns t) with
  | Some (IntCol l) => Some l
  | _ => None
  end.

(** The segment image of a micrograph: rows of cells, [seg_img[y][x]]. *)
Definition ndarray : Type := list (list spec_float).

(** The parsed command line. *)
Record Args : Type := {
  starfile : string;
  cpus : Z;
  x_patches : Z;
  y_patches : Z;
  num_of_segments : Z;
  output_star : string
}.

(** ** load_star_file *)

Definition no_micrograph_name : string :=
  "No micrograph name present, exiting".

(** [star_file] stands for the content [starfile.read] parses from the
    path.  The first component is what the function prints.  [particles]
    is the very object stored in [df], so the new column shows in [df]
    as well. *)
Definition load_star_file (star_file : document)
  : list string * result (document * DataFrame * column) :=
  match dict_item "particles"%string star_file with
  | Raise e => ([], Raise e)
  | Ok particles0 =>
      let particles := set_scalar_column "ibIceGroup" (-1) particles0 in
      let df := dict_set "particles"%string particles star_file in
      match dict_get "rlnMicrographName"%string (columns particles) with
      | Some micrographs_used => ([], Ok (df, particles, micrographs_used))
      | None =>
          ([no_micrograph_name], Raise (SystemExit None))
      end
  end.

(** ** get_unique_micrographs *)

Fixpoint enumerate_from {A : Type} (n : nat) (l : list A) : list (nat * A) :=
  match l with
  | [] => []
  | a :: l' => (n, a) :: enumerate_from (S n) l'
  end.

Definition enumerate {A : Type} (l : list A) : list (nat * A) :=
  enumerate_from 0 l.

(** [[i for i, e in enumerate(micrographs_used) if e == mic]] *)
Definition indices_of (mic : string) (micrographs_used : list string)
  : list nat :=
  map fst (filter (fun ie => String.eqb (snd ie) mic)
                  (enumerate micrographs_used)).

(** [list.sort()] on strings: ascending in the order of [str], which
    compares character by character. *)
Fixpoint insert_sorted (x : string) (l : list string) : list string :=
  match l with
  | [] => [x]
  | y :: l' => if String.leb x y then x :: l else y :: insert_sorted x l'
  end.

Definition py_sort (l : list string) : list string :=
  fold_right insert_sorted [] l.

(** The grouper after [list(set(micrographs_used))] has produced [elems],
    the distinct identifiers in the order the set iterates them. *)
Definition get_unique_micrographs_of (elems micrographs_used : list string)
  : list string * dict string (list nat) :=
  let micrographs_unique := py_sort elems in
  let mic_coord :=
    fold_left (fun d mic => dict_set mic (indices_of mic micrographs_used) d)
              micrographs_unique [] in
  (micrographs_unique, mic_coord).

(** The iteration order of a Python set is not specified; the model
    takes the distinct elements as [nodup] leaves them.  The order does
    not show in the result ([get_unique_micrographs_any_order]). *)
Definition py_set (l : list string) : list string := nodup string_dec l.

Definition get_unique_micrographs (micrographs_used : list string)
  : list string * dict string (list nat) :=
  get_unique_micrographs_of (py_set micrographs_used) micrographs_used.

(** The identifiers are paths handed to [load_img]: the model follows the
    script on a column of strings, and on a column without rows whatever
    its dtype (a table without particles is read with float columns). *)
Definition column_strings (c : column) : result (list string) :=
  match c with
  | StrCol l => Ok l
  | FloatCol [] | IntCol [] => Ok []
  | FloatCol _ | IntCol _ => Raise NotModelled
  end.

(** ** The worker pool *)

Fixpoint remove_nth {A : Type} (k : nat) (l : list A) : list A :=
  match l, k with
  | [], _ => []
  | _ :: l', O => l'
  | a :: l', S k' => a :: remove_nth k' l'
  end.

(** The order in which the pending tasks complete.  Scheduling is a list
    of choices: each step completes the pending task the next choice
    points at (modulo the number of pending tasks; the first one when the
    choices run out).  Every list of choices is a schedule, and every
    order of completion is the schedule of some list of choices.  The
    pool itself completes the tasks in fewer orders (it hands them out
    in chunks, a chunk stops at its first exception, a worker runs its
    chunks one after the other): what holds for every list of choices
    holds for the orders of the pool. *)
Fixpoint completion_order (fuel : nat) (choices pending : list nat)
  : list nat :=
  match fuel, pending with
  | S fuel', p0 :: _ =>
      let k := Nat.modulo (hd 0%nat choices) (List.length pending) in
      nth k pending p0
        :: completion_order fuel' (tl choices) (remove_nth k pending)
  | _, _ => []
  end.

Section Pool.
Context {T R : Type}.
Variable f : T -> result R.

(** The state of [MapResult]: one slot per task, and the first exception
    that came in. *)
Record pool_state : Type := {
  slots : list (option R);
  failure : option exn
}.

(** [MapResult._set]: a result is stored in the slot of its task while
    no task has failed; of the exceptions only the first one to arrive
    is kept. *)
Definition complete (tasks : list T) (st : pool_state) (i : nat)
  : pool_state :=
  match nth_error tasks i with
  | None => st
  | Some t =>
      match f t, failure st with
      | Ok r, None =>
          {| slots := list_set i (Some r) (slots st); failure := None |}
      | Raise e, None => {| slots := slots st; failure := Some e |}
      | _, Some _ => st
      end
  end.

Fixpoint collect (l : list (option R)) : result (list R) :=
  match l with
  | [] => Ok []
  | Some r :: l' => rs <- collect l' ;; Ok (r :: rs)
  | None :: _ => Raise NotModelled
  end.

(** [pool.starmap(f, tasks)]: blocks until every task has completed,
    then raises the stored exception or returns the results in the order
    of [tasks].  No slot is empty at that point ([starmap_returns]), so the
    last case of [collect] is never met. *)
Definition starmap (tasks : list T) (choices : list nat)
  : result (list R) :=
  let n := List.length tasks in
  let st := fold_left (complete tasks)
                      (completion_order n choices (seq 0 n))
                      {| slots := repeat None n; failure := None |} in
  match failure st with
  | Some e => Raise e
  | None => collect (slots st)
  end.
End Pool.

(** [Pool(processes)] refuses a pool without workers. *)
Definition Pool (processes : Z) : result unit :=
  if (processes <? 1)%Z then Raise ValueError else Ok tt.

(** ** The pipeline *)

(** What a run of the script leaves behind: the lines printed, the
    micrographs handed to the pool, the files written, and the exception
    that ended the run, if any. *)
Record run : Type := {
  stdout : list string;
  submitted : list string;
  written : list (string * document);
  raised : option exn
}.

(** The exit status of the interpreter: [exit()] without an argument and
    a normal end give 0, an uncaught exception gives 1. *)
Definition exit_status (r : run) : Z :=
  match raised r with
  | None => 0
  | Some (SystemExit None) => 0
  | Some (SystemExit (Some c)) => c
  | Some _ => 1
  end.

Section Pipeline.
(** The float format of [seg_img[y1][x1] * 10000]. *)
Variables prec emax : Z.

(** The imported [icebreaker_icegroups_multi]: [load_img] reads the
    micrograph, [ice_grouper] segments it and returns [None] when it
    has no segment image to give.  Both may raise. *)
Variable image : Type.
Variable load_img : string -> result image.
Variable ice_grouper : image -> Z -> Z -> Z -> result (option ndarray).

(** [starfile.write(df, path)] as the file system answers it: the file is
    written, or an exception is raised and no file is left. *)
Variable starfile_write : document -> string -> result unit.

(** [int(np.floor(particles[name][part_ind]))].  An integer cell is its
    own floor (NumPy keeps the integer, or goes through a float64 that
    holds it exactly up to 2^53); a string is rejected. *)
Definition pixel (particles : DataFrame) (name : string) (part_ind : nat)
  : result Z :=
  col <- dict_item name (columns particles) ;;
  match col with
  | FloatCol l =>
      match nth_error l part_ind with
      | Some f => PyNum.py_int (PyNum.np_floor f)
      | None => Raise KeyError
      end
  | IntCol l =>
      match nth_error l part_ind with
      | Some z => Ok z
      | None => Raise KeyError
      end
  | StrCol l =>
      match nth_error l part_ind with
      | Some _ => Raise TypeError
      | None => Raise KeyError
      end
  end.

(** The body of the loop over [mic_coord[mic]]. *)
Definition label_particle (particles : DataFrame) (seg_img : option ndarray)
    (ice_group : dict nat Z) (part_ind : nat) : result (dict nat Z) :=
  x1 <- pixel particles "rlnCoordinateX" part_ind ;;
  y1 <- pixel particles "rlnCoordinateY" part_ind ;;
  match seg_img with
  | None => Ok ice_group
  | Some arr =>
      row <- py_index arr y1 ;;
      v <- py_index row x1 ;;
      if PyNum.isfinite v then
        group <- PyNum.py_int (PyNum.mul_int prec emax v 10000) ;;
        Ok (dict_set part_ind group ice_group)
      else Ok ice_group
  end.

(** [particles] and [mic_coord] are the globals of the script, which the
    forked workers read. *)
Definition process_particle_icethickness (particles : DataFrame)
    (mic_coord : dict string (list nat)) (args : Args) (mic : string)
  : result (dict nat Z) :=
  img <- load_img mic ;;
  seg_img <- ice_grouper img (x_patches args) (y_patches args)
                         (num_of_segments args) ;;
  part_inds <- dict_item mic mic_coord ;;
  for_each (label_particle particles seg_img) part_inds [].

(** [particles.at[part_ind, 'ibIceGroup'] = ice_group] on a row of the
    table and an integer label column.  The column is [int64]: a label it
    cannot hold raises [OverflowError].  For a row that is not there
    pandas would add one, and it would retype a column of another kind:
    the model stops at both. *)
Definition at_set (part_ind : nat) (ice_group : Z) (particles : DataFrame)
  : result DataFrame :=
  match dict_get "ibIceGroup"%string (columns particles) with
  | Some (IntCol l) =>
      if (part_ind <? List.length l)%nat
      then if int64 ice_group
           then Ok {| index := index particles;
                      columns := dict_set "ibIceGroup"%string
                                   (IntCol (list_set part_ind ice_group l))
                                   (columns particles) |}
           else Raise OverflowError
      else Raise NotModelled
  | _ => Raise NotModelled
  end.

Definition apply_ice_group_to_particles (result_ : dict nat Z)
    (particles : DataFrame) : result DataFrame :=
  for_each (fun p kv => at_set (fst kv) (snd kv) p) result_ particles.

(** The script from the parsed arguments on, with the two places where
    the interpreter and the pool decide left open: [set_list] is
    [list(set(micrographs_used))], the distinct identifiers in the order
    the set iterates them, and [pool] is
    [p.starmap(process_particle_icethickness, ...)] on the globals
    [particles] and [mic_coord]. *)
Definition script (set_list : list string -> list string)
    (pool : DataFrame -> dict string (list nat) -> Args -> list string ->
            result (list (dict nat Z)))
    (args : Args) (star_file : document) : run :=
  let (out, loaded) := load_star_file star_file in
  let stop sub e :=
    {| stdout := out; submitted := sub; written := []; raised := Some e |} in
  match loaded with
  | Raise e => stop [] e
  | Ok (df, particles, micrographs_used) =>
      match column_strings micrographs_used with
      | Raise e => stop [] e
      | Ok names =>
          let (micrographs_unique, mic_coord) :=
            get_unique_micrographs_of (set_list names) names in
          match Pool (cpus args) with
          | Raise e => stop [] e
          | Ok _ =>
              match pool particles mic_coord args micrographs_unique with
              | Raise e => stop micrographs_unique e
              | Ok results =>
                  match for_each
                          (fun p r => apply_ice_group_to_particles r p)
                          results particles with
                  | Raise e => stop micrographs_unique e
                  | Ok particles' =>
                      let df' := dict_set "particles"%string particles' df in
                      match starfile_write df' (output_star args) with
                      | Raise e => stop micrographs_unique e
                      | Ok _ =>
                          {| stdout := out;
                             submitted := micrographs_unique;
                             written := [(output_star args, df')];
                             raised := None |}
                      end
                  end
              end
          end
      end
  end.

(** The script with the imported functions as functions of their
    arguments.  [choices] is the scheduling of the pool. *)
Definition main (args : Args) (star_file : document) (choices : list nat)
  : run :=
  script py_set
    (fun particles mic_coord args micrographs_unique =>
       starmap (process_particle_icethickness particles mic_coord args)
               micrographs_unique choices)
    args star_file.

(** *** What the task computes for one row

    The three definitions below restate parts of the task so that the
    theorems can name them; [label_particle_label_at] and
    [process_particle_icethickness_eq] tie them to the code. *)

(** The segment image the task of [mic] works on. *)
Definition segment_of (args : Args) (mic : string)
  : result (option ndarray) :=
  img <- load_img mic ;;
  ice_grouper img (x_patches args) (y_patches args) (num_of_segments args).

(** The cell [seg_img[y1][x1]] read for a row. *)
Definition cell_read (particles : DataFrame) (seg_img : ndarray)
    (part_ind : nat) : result spec_float :=
  x1 <- pixel particles "rlnCoordinateX" part_ind ;;
  y1 <- pixel particles "rlnCoordinateY" part_ind ;;
  row <- py_index seg_img y1 ;;
  py_index row x1.

(** The decision of the loop body for a row: a label, or none. *)
Definition label_at (particles : DataFrame) (seg_img : option ndarray)
    (part_ind : nat) : result (option Z) :=
  x1 <- pixel particles "rlnCoordinateX" part_ind ;;
  y1 <- pixel particles "rlnCoordinateY" part_ind ;;
  match seg_img with
  | None => Ok None
  | Some arr =>
      row <- py_index arr y1 ;;
      v <- py_index row x1 ;;
      if PyNum.isfinite v then
        group <- PyNum.py_int (PyNum.mul_int prec emax v 10000) ;;
        Ok (Some group)
      else Ok None
  end.
End Pipeline.

(** ** The pool with its worker processes

    The imported functions are library code, which can keep a state of
    its own in every process (a random generator, a cache).  A worker is
    forked with the state of the parent and carries its state from one
    task to the next.  This section follows the pool with that state:
    the tasks are handed out in chunks, every chunk is run by one worker,
    and a worker runs its chunks in the order they leave the queue. *)

(** [Pool._map_async]: the size of the chunks. *)
Definition chunk_size (n processes : nat) : nat :=
  let q := Nat.div n (4 * processes) in
  if Nat.eqb (Nat.modulo n (4 * processes)) 0 then q else S q.

(** [Pool._get_tasks]: slices of [size] tasks one after the other, until
    a slice is empty. *)
Fixpoint get_tasks {T : Type} (fuel size : nat) (l : list T)
  : list (list T) :=
  match fuel with
  | O => []
  | S fuel' =>
      match firstn size l with
      | [] => []
      | x => x :: get_tasks fuel' size (skipn size l)
      end
  end.

Section WorkerPool.
Context {T R W : Type}.
Variable f : T -> W -> result R * W.

(** [starmapstar] on one chunk in a worker: the tasks of the chunk one
    after the other, the first exception ends the chunk. *)
Fixpoint run_chunk (chunk : list T) (w : W) : result (list R) * W :=
  match chunk with
  | [] => (Ok [], w)
  | t :: chunk' =>
      match f t w with
      | (Raise e, w') => (Raise e, w')
      | (Ok r, w') =>
          let (rs, w'') := run_chunk chunk' w' in
          (rs' <- rs ;; Ok (r :: rs'), w'')
      end
  end.

(** The chunks in the order of the queue.  [assign] names the worker
    that takes each chunk (modulo the number of workers; worker 0 when
    the list runs out); [ws] holds the states of the workers. *)
Fixpoint dispatch (processes : nat) (w0 : W) (chunks : list (list T))
    (assign : list nat) (ws : list W) : list (result (list R)) :=
  match chunks with
  | [] => []
  | c :: chunks' =>
      let k := Nat.modulo (hd 0%nat assign) processes in
      let (res, w') := run_chunk c (nth k ws w0) in
      res :: dispatch processes w0 chunks' (tl assign) (list_set k w' ws)
  end.

(** [pool.starmap] with [processes] workers forked in state [w0]: the
    outcomes of the chunks come in as [choices] schedules them, and the
    results of the chunks are joined in the order of the tasks. *)
Definition starmap_workers (processes : nat) (w0 : W) (tasks : list T)
    (assign choices : list nat) : result (list R) :=
  let n := List.length tasks in
  let outcomes :=
    dispatch processes w0 (get_tasks n (chunk_size n processes) tasks)
             assign (repeat w0 processes) in
  rss <- starmap (fun o => o) outcomes choices ;;
  Ok (List.concat rss).
End WorkerPool.

Section Workers.
Variables prec emax : Z.
Variables image W : Type.

(** The imported functions in a process whose state is [w]: the result
    and the state they leave. *)
Variable load_img : string -> W -> result image * W.
Variable ice_grouper :
  image -> Z -> Z -> Z -> W -> result (option ndarray) * W.
Variable starfile_write : document -> string -> result unit.

(** [process_particle_icethickness] in a worker. *)
Definition process_in_worker (particles : DataFrame)
    (mic_coord : dict string (list nat)) (args : Args) (mic : string)
    (w : W) : result (dict nat Z) * W :=
  match load_img mic w with
  | (Raise e, w1) => (Raise e, w1)
  | (Ok img, w1) =>
      match ice_grouper img (x_patches args) (y_patches args)
                        (num_of_segments args) w1 with
      | (Raise e, w2) => (Raise e, w2)
      | (Ok seg_img, w2) =>
          (part_inds <- dict_item mic mic_coord ;;
           for_each (label_particle prec emax particles seg_img) part_inds [],
           w2)
      end
  end.

(** The script with the pool of workers: [w0] is the state of the
    library in the parent when the pool is made, [set_list] the order in
    which the set of identifiers iterates, [assign] and [choices] the
    scheduling. *)
Definition main_workers (w0 : W) (set_list : list string -> list string)
    (assign choices : list nat) (args : Args) (star_file : document)
  : run :=
  script starfile_write set_list
    (fun particles mic_coord args micrographs_unique =>
       starmap_workers (process_in_worker particles mic_coord args)
         (Z.to_nat (cpus args)) w0 micrographs_unique assign choices)
    args star_file.
End Workers.

(** The table [t] with [labels] as its label column. *)
Definition with_labels (labels : list Z) (t : DataFrame) : DataFrame :=
  {| index := index t;
     columns := dict_set "ibIceGroup"%string (IntCol labels) (columns t) |}.

(** The label column after the assignments [l[k] = v] of a list of items,
    in order. *)
Definition assign_all (items : list (nat * Z)) (labels : list Z) : list Z :=
  fold_left (fun l kv => list_set (fst kv) (snd kv) l) items labels.

(** ** Vocabulary of the statements *)

(** The order of [str]: strictly below, and below or equal. *)
Definition str_lt (a b : string) : Prop := String.ltb a b = true.
Definition str_le (a b : string) : Prop := String.leb a b = true.

(** A run that ends on an exception without writing. *)
Definition stopped (out sub : list string) (e : exn) : run :=
  {| stdout := out; submitted := sub; written := []; raised := Some e |}.

(** An item that a table of [n] rows takes: it names one of the rows and
    its label fits the column. *)
Definition item_fits (n : nat) (kv : nat * Z) : bool :=
  (fst kv <? n)%nat && int64 (snd kv).

(** Every item names a row among the first [n] with a label that fits. *)
Definition in_table (n : nat) (items : list (nat * Z)) : bool :=
  forallb (item_fits n) items.

(** What writing the items raises at the first item that does not fit. *)
Definition apply_error (n : nat) (items : list (nat * Z)) : exn :=
  match find (fun kv => negb (item_fits n kv)) items with
  | Some kv => if (fst kv <? n)%nat then OverflowError else NotModelled
  | None => NotModelled
  end.

(** ** A run to test on

    Seven particles on two micrographs.  The image of [a.mrc] gives no
    segment image; the one of [b.mrc] is two by two with a negative
    cell, an undefined one and two positive ones.  The input already has
    labels. *)
Module Sample.
Open Scope string_scope.
Open Scope Z_scope.

(** [m * 2^e] as a float64. *)
Definition dyadic (m e : Z) : spec_float :=
  binary_normalize 53 1024 m e false.

Definition seg : ndarray :=
  [ [dyadic (-1) (-14); dyadic 3 (-2)];
    [S754_nan;          dyadic 5 (-15)] ].

Definition names : list string :=
  ["b.mrc"; "a.mrc"; "b.mrc"; "a.mrc"; "b.mrc"; "a.mrc"; "b.mrc"].

Definition table : DataFrame :=
  {| index := 7;
     columns :=
       [ ("rlnCoordinateX",
          FloatCol [dyadic 0 0; dyadic 1 0; dyadic 3 (-1); dyadic 0 0;
                    dyadic (-1) 0; dyadic 1 0; dyadic 1 (-1)]);
         ("rlnMicrographName", StrCol names);
         ("ibIceGroup", IntCol [7; 7; 7; 7; 7; 7; 7]);
         ("rlnCoordinateY",
          FloatCol [dyadic 0 0; dyadic 1 0; dyadic 0 0; dyadic 1 0;
                    dyadic (-3) (-1); dyadic 0 0; dyadic 1 0]) ] |}.

Definition optics : DataFrame :=
  {| index := 1; columns := [("rlnOpticsGroup", IntCol [1])] |}.

Definition star : document := [("optics", optics); ("particles", table)].

Definition args : Args :=
  {| starfile := "particles.star"; cpus := 12; x_patches := 40;
     y_patches := 40; num_of_segments := 16;
     output_star := "extract_particles_icegroups.star" |}.

(** The same arguments with an output path that cannot be written. *)
Definition args_unwritable : Args :=
  {| starfile := "particles.star"; cpus := 12; x_patches := 40;
     y_patches := 40; num_of_segments := 16; output_star := EmptyString |}.

Definition load_img (mic : string) : result string := Ok mic.

Definition ice_grouper (img : string) (x y n : Z)
  : result (option ndarray) :=
  if String.eqb img "a.mrc" then Ok None else Ok (Some seg).

(** A file system that takes every file with a name. *)
Definition starfile_write (df : document) (path : string) : result unit :=
  if String.eqb path EmptyString then Raise OSError else Ok tt.

Definition run_of (star_file : document) (choices : list nat) : run :=
  main 53 1024 load_img ice_grouper starfile_write args star_file choices.

(** The same file without the identifier column. *)
Definition table_unnamed : DataFrame :=
  {| index := 1;
     columns := [ ("rlnCoordinateX", FloatCol [dyadic 0 0]);
                  ("rlnCoordinateY", FloatCol [dyadic 0 0]) ] |}.

Definition star_unnamed : document :=
  [("optics", optics); ("particles", table_unnamed)].

(** One particle three rows above a segment image of two rows. *)
Definition table_far : DataFrame :=
  {| index := 1;
     columns := [ ("rlnMicrographName", StrCol ["b.mrc"]);
                  ("rlnCoordinateX", FloatCol [dyadic 0 0]);
                  ("rlnCoordinateY", FloatCol [dyadic (-3) 0]) ] |}.

Definition star_far : document :=
  [("optics", optics); ("particles", table_far)].

(** Two particles at the origin of two micrographs, and a segmentation
    whose value depends on how many images the process has segmented
    before, as with a random generator that advances. *)
Definition table_two : DataFrame :=
  {| index := 2;
     columns := [ ("rlnMicrographName", StrCol ["a.mrc"; "b.mrc"]);
                  ("rlnCoordinateX", FloatCol [dyadic 0 0; dyadic 0 0]);
                  ("rlnCoordinateY", FloatCol [dyadic 0 0; dyadic 0 0]) ] |}.

Definition star_two : document :=
  [("optics", optics); ("particles", table_two)].

Definition load_img_w (mic : string) (w : nat) : result string * nat :=
  (Ok mic, w).

Definition ice_grouper_w (img : string) (x y n : Z) (w : nat)
  : result (option ndarray) * nat :=
  (Ok (Some [[if Nat.eqb w 0 then dyadic 3 (-2) else dyadic 1 (-1)]]), S w).

(** A segmentation that counts the images of the process and returns
    the same image whatever the count. *)
Definition ice_grouper_counting (img : string) (x y n : Z) (w : nat)
  : result (option ndarray) * nat :=
  (ice_grouper img x y n, S w).

Definition run_workers (assign : list nat) : run :=
  main_workers 53 1024 load_img_w ice_grouper_w starfile_write 0%nat
    py_set assign [] args star_two.
End Sample.

(** The file the sample run writes. *)
Definition sample_output : document :=
  Eval vm_compute in
    match written (Sample.run_of Sample.star []) with
    | (_, out) :: _ => out
    | [] => []
    end.

(** ** Vocabulary of the further properties *)

(** The items the loop of a task stores for the rows [part_inds]: the rows
    that get a label, in the order of the list. *)
Definition labelled_rows (prec emax : Z) (particles : DataFrame)
    (seg_img : option ndarray) (part_inds : list nat) : list (nat * Z) :=
  flat_map (fun i => match label_at prec emax particles seg_img i with
                     | Ok (Some group) => [(i, group)]
                     | _ => []
                     end) part_inds.

(** Both coordinates of a row can be floored. *)
Definition readable (particles : DataFrame) (part_ind : nat) : bool :=
  is_ok (pixel particles "rlnCoordinateX" part_ind)
  && is_ok (pixel particles "rlnCoordinateY" part_ind).

(** * Properties *)

(** ** The order of strings *)

Lemma ascii_compare_refl (c : ascii) : Ascii.compare c c = Eq.
Proof. unfold Ascii.compare. apply N.compare_refl. Qed.

Lemma string_compare_refl (s : string) : String.compare s s = Eq.
Proof.
  induction s as [|c s IH]; simpl; [reflexivity|].
  now rewrite ascii_compare_refl.
Qed.

Lemma ascii_compare_lt_trans (a b c : ascii) :
  Ascii.compare a b = Lt -> Ascii.compare b c = Lt -> Ascii.compare a c = Lt.
Proof.
  unfold Ascii.compare. rewrite !N.compare_lt_iff. lia.
Qed.

Lemma string_compare_lt_trans (a b c : string) :
  String.compare a b = Lt -> String.compare b c = Lt ->
  String.compare a c = Lt.
Proof.
  revert b c. induction a as [|x a IH]; intros [|y b] [|z c]; simpl;
    try congruence.
  destruct (Ascii.compare x y) eqn:Hxy; try discriminate;
    destruct (Ascii.compare y z) eqn:Hyz; try discriminate.
  - apply Ascii.compare_eq_iff in Hxy, Hyz. subst.
    rewrite ascii_compare_refl. apply IH.
  - apply Ascii.compare_eq_iff in Hxy. subst. now rewrite Hyz.
  - apply Ascii.compare_eq_iff in Hyz. subst. now rewrite Hxy.
  - now rewrite (ascii_compare_lt_trans _ _ _ Hxy Hyz).
Qed.

Lemma str_lt_irrefl (a : string) : ~ str_lt a a.
Proof. unfold str_lt, String.ltb. now rewrite string_compare_refl. Qed.

Lemma str_lt_trans (a b c : string) : str_lt a b -> str_lt b c -> str_lt a c.
Proof.
  unfold str_lt, String.ltb. intros Hab Hbc.
  destruct (String.compare a b) eqn:E1; try discriminate.
  destruct (String.compare b c) eqn:E2; try discriminate.
  now rewrite (string_compare_lt_trans _ _ _ E1 E2).
Qed.

Lemma str_le_lt_or_eq (a b : string) : str_le a b <-> str_lt a b \/ a = b.
Proof.
  unfold str_le, str_lt, String.leb, String.ltb. split.
  - destruct (String.compare a b) eqn:E; try discriminate; intros _.
    + right. now apply String.compare_eq_iff.
    + now left.
  - intros [Hlt | ->].
    + now destruct (String.compare a b).
    + now rewrite string_compare_refl.
Qed.

Lemma str_not_le_lt (a b : string) : String.leb a b = false -> str_lt b a.
Proof.
  unfold str_lt, String.leb, String.ltb. rewrite String.compare_antisym.
  now destruct (String.compare b a).
Qed.

Lemma str_lt_asym (a b : string) : str_lt a b -> str_lt b a -> False.
Proof. intros H1 H2. exact (str_lt_irrefl (str_lt_trans H1 H2)). Qed.

(** ** Sorting *)

Lemma insert_sorted_perm (x : string) (l : list string) :
  Permutation (x :: l) (insert_sorted x l).
Proof.
  induction l as [|y l IH]; simpl; [reflexivity|].
  destruct (String.leb x y); [reflexivity|].
  rewrite perm_swap. now constructor.
Qed.

Lemma py_sort_perm (l : list string) : Permutation l (py_sort l).
Proof.
  induction l as [|x l IH]; simpl; [constructor|].
  rewrite <- insert_sorted_perm. now constructor.
Qed.

Lemma py_sort_in (l : list string) (x : string) : In x (py_sort l) <-> In x l.
Proof.
  split; apply Permutation_in; [symmetry|]; apply py_sort_perm.
Qed.

Lemma insert_sorted_ascending (x : string) (l : list string) :
  ~ In x l -> StronglySorted str_lt l -> StronglySorted str_lt (insert_sorted x l).
Proof.
  induction l as [|y l IH]; simpl; intros Hnin Hs.
  - repeat constructor.
  - inversion Hs as [|? ? Hs' Hall]; subst.
    destruct (String.leb x y) eqn:E.
    + apply str_le_lt_or_eq in E. destruct E as [Hlt | ->]; [|tauto].
      constructor; [assumption|]. constructor; [assumption|].
      eapply Forall_impl; [|exact Hall]. intros z Hz. exact (str_lt_trans Hlt Hz).
    + apply str_not_le_lt in E. constructor.
      * apply IH; [tauto | assumption].
      * rewrite Forall_forall. intros z Hz.
        apply (Permutation_in _ (Permutation_sym (insert_sorted_perm x l))) in Hz.
        destruct Hz as [<- | Hz]; [assumption|].
        rewrite Forall_forall in Hall. now apply Hall.
Qed.

Lemma py_sort_ascending (l : list string) :
  NoDup l -> StronglySorted str_lt (py_sort l).
Proof.
  induction 1 as [|x l Hnin Hnd IH]; simpl; [constructor|].
  apply insert_sorted_ascending; [|assumption].
  now rewrite py_sort_in.
Qed.

Lemma ascending_NoDup (l : list string) : StronglySorted str_lt l -> NoDup l.
Proof.
  induction 1 as [|x l Hs IH Hall]; constructor; [|assumption].
  intros Hin. rewrite Forall_forall in Hall.
  exact (str_lt_irrefl (Hall _ Hin)).
Qed.

(** Two ascending lists with the same elements are the same list. *)
Lemma ascending_unique (l1 l2 : list string) :
  StronglySorted str_lt l1 -> StronglySorted str_lt l2 ->
  (forall x, In x l1 <-> In x l2) -> l1 = l2.
Proof.
  intros H1. revert l2. induction H1 as [|x l1 Hs1 IH Hall1]; intros l2 H2 Heq.
  - destruct l2 as [|y l2]; [reflexivity|].
    exfalso. apply (proj2 (Heq y)). now left.
  - destruct H2 as [|y l2 Hs2 Hall2].
    + exfalso. apply (proj1 (Heq x)). now left.
    + rewrite Forall_forall in Hall1, Hall2.
      assert (x = y) as ->.
      { destruct (proj1 (Heq x) (or_introl eq_refl)) as [E | Hin]; [now symmetry|].
        destruct (proj2 (Heq y) (or_introl eq_refl)) as [E | Hin']; [assumption|].
        exfalso. exact (str_lt_asym (Hall1 _ Hin') (Hall2 _ Hin)). }
      f_equal. apply IH; [assumption|].
      intros z. split; intros Hz.
      * destruct (proj1 (Heq z) (or_intror Hz)) as [<- | ?]; [|assumption].
        exfalso. exact (str_lt_irrefl (Hall1 _ Hz)).
      * destruct (proj2 (Heq z) (or_intror Hz)) as [<- | ?]; [|assumption].
        exfalso. exact (str_lt_irrefl (Hall2 _ Hz)).
Qed.

Lemma py_sort_any_order (l1 l2 : list string) :
  NoDup l1 -> Permutation l1 l2 -> py_sort l1 = py_sort l2.
Proof.
  intros Hnd Hp. apply ascending_unique.
  - now apply py_sort_ascending.
  - apply py_sort_ascending. eapply Permutation_NoDup; eassumption.
  - intros x. rewrite !py_sort_in. split; apply Permutation_in;
      [assumption | now symmetry].
Qed.

(** ** Dictionaries *)

Section DictFacts.
Context {K V : Type} `{KeyEq K}.

Lemma keqb_refl (k : K) : keqb k k = true.
Proof. now destruct (keqb_spec k k). Qed.

Lemma keqb_neq (k k' : K) : k <> k' -> keqb k k' = false.
Proof. intros Hne. now destruct (keqb_spec k k'). Qed.

Lemma dict_get_set_same (k : K) (v : V) (d : dict K V) :
  dict_get k (dict_set k v d) = Some v.
Proof.
  induction d as [|[k' v'] d IH]; simpl.
  - now rewrite keqb_refl.
  - destruct (keqb_spec k k') as [->|Hne]; simpl.
    + now rewrite keqb_refl.
    + now rewrite (keqb_neq Hne).
Qed.

Lemma dict_get_set_other (k k0 : K) (v : V) (d : dict K V) :
  k0 <> k -> dict_get k0 (dict_set k v d) = dict_get k0 d.
Proof.
  intros Hne. induction d as [|[k' v'] d IH]; simpl.
  - now rewrite (keqb_neq Hne).
  - destruct (keqb_spec k k') as [->|Hne']; simpl.
    + now rewrite (keqb_neq Hne).
    + now rewrite IH.
Qed.

Lemma dict_get_None (k : K) (d : dict K V) :
  dict_get k d = None <-> ~ In k (dict_keys d).
Proof.
  induction d as [|[k' v'] d IH]; simpl; [tauto|].
  destruct (keqb_spec k k') as [->|Hne].
  - split; [discriminate | intros Hn; exfalso; apply Hn; now left].
  - rewrite IH. split; [intros Hn [E|Hin]; [now apply Hne | tauto] | tauto].
Qed.

Lemma dict_get_In (k : K) (v : V) (d : dict K V) :
  dict_get k d = Some v -> In (k, v) d.
Proof.
  induction d as [|[k' v'] d IH]; simpl; [discriminate|].
  destruct (keqb_spec k k') as [->|Hne].
  - intros [= ->]. now left.
  - intros Hg. right. now apply IH.
Qed.

Lemma dict_In_get (k : K) (v : V) (d : dict K V) :
  NoDup (dict_keys d) -> In (k, v) d -> dict_get k d = Some v.
Proof.
  induction d as [|[k' v'] d IH]; simpl; [tauto|].
  intros Hnd [[= -> ->] | Hin].
  - now rewrite keqb_refl.
  - inversion Hnd as [|? ? Hnin Hnd']; subst.
    destruct (keqb_spec k k') as [->|Hne]; [|now apply IH].
    exfalso. apply Hnin. unfold dict_keys. rewrite in_map_iff.
    now exists (k', v).
Qed.

(** A new key goes to the end of the dictionary. *)
Lemma dict_set_fresh (k : K) (v : V) (d : dict K V) :
  ~ In k (dict_keys d) -> dict_set k v d = d ++ [(k, v)].
Proof.
  induction d as [|[k' v'] d IH]; simpl; [reflexivity|].
  intros Hnin. destruct (keqb_spec k k') as [->|Hne]; [tauto|].
  now rewrite IH by tauto.
Qed.

(** Assigning twice to a key is assigning the last value. *)
Lemma dict_set_set (k : K) (v1 v2 : V) (d : dict K V) :
  dict_set k v2 (dict_set k v1 d) = dict_set k v2 d.
Proof.
  induction d as [|[k' v'] d IH]; simpl.
  - now rewrite keqb_refl.
  - destruct (keqb_spec k k') as [->|Hne]; simpl.
    + now rewrite keqb_refl.
    + now rewrite (keqb_neq Hne), IH.
Qed.

(** Assigning to a key that is there keeps the keys and their order. *)
Lemma dict_keys_set_present (k : K) (v : V) (d : dict K V) :
  In k (dict_keys d) -> dict_keys (dict_set k v d) = dict_keys d.
Proof.
  induction d as [|[k' v'] d IH]; simpl; [tauto|].
  intros Hin. destruct (keqb_spec k k') as [->|Hne]; simpl; [reflexivity|].
  f_equal. apply IH. destruct Hin as [E|Hin]; [now subst|assumption].
Qed.

Lemma dict_keys_set (k : K) (v : V) (d : dict K V) :
  dict_keys (dict_set k v d) =
  if dict_mem k d then dict_keys d else dict_keys d ++ [k].
Proof.
  unfold dict_mem. destruct (dict_get k d) eqn:E.
  - apply dict_keys_set_present. destruct (dict_get_None k d) as [_ Hn].
    destruct (in_dec (fun x y => reflect_dec _ _ (keqb_spec x y)) k (dict_keys d));
      [assumption|]. rewrite Hn in E by assumption. discriminate.
  - rewrite dict_set_fresh by now apply dict_get_None.
    unfold dict_keys. now rewrite map_app.
Qed.
End DictFacts.

(** ** The grouper *)

Lemma enumerate_from_spec {A : Type} (l : list A) (n i : nat) (a : A) :
  In (i, a) (enumerate_from n l) <-> (n <= i /\ nth_error l (i - n) = Some a)%nat.
Proof.
  revert n. induction l as [|b l IH]; intros n; simpl.
  - split; [tauto|]. intros [_ Hn]. now destruct (i - n)%nat.
  - rewrite IH. split.
    + intros [[= <- <-] | [Hle Hn]].
      * split; [lia|]. now rewrite Nat.sub_diag.
      * split; [lia|]. replace (i - n)%nat with (S (i - S n)) by lia. exact Hn.
    + intros [Hle Hn]. destruct (i - n)%nat as [|k] eqn:E.
      * left. simpl in Hn. injection Hn as <-. f_equal. lia.
      * right. split; [lia|]. simpl in Hn. now replace (i - S n)%nat with k by lia.
Qed.

Lemma enumerate_from_fst_sorted {A : Type} (l : list A) (n : nat) :
  StronglySorted lt (map fst (enumerate_from n l)) /\
  Forall (fun i => n <= i)%nat (map fst (enumerate_from n l)).
Proof.
  revert n. induction l as [|b l IH]; intros n; simpl.
  - split; constructor.
  - destruct (IH (S n)) as [Hs Hall]. split.
    + constructor; [assumption|]. eapply Forall_impl; [|exact Hall].
      simpl. intros; lia.
    + constructor; [lia|]. eapply Forall_impl; [|exact Hall]. simpl. intros; lia.
Qed.

Lemma StronglySorted_filter_map {A B : Type} (R : B -> B -> Prop) (g : A -> B)
    (p : A -> bool) (l : list A) :
  StronglySorted R (map g l) -> StronglySorted R (map g (filter p l)).
Proof.
  induction l as [|a l IH]; simpl; intros Hs; [constructor|].
  inversion Hs as [|? ? Hs' Hall]; subst.
  destruct (p a); simpl; [|now apply IH].
  constructor; [now apply IH|].
  rewrite Forall_forall in *. intros b Hb. apply Hall.
  rewrite in_map_iff in *. destruct Hb as [x [<- Hx]].
  exists x. split; [reflexivity|]. now apply filter_In in Hx.
Qed.

(** The index list of [mic] holds the rows whose identifier is [mic]. *)
Lemma indices_of_spec (mic : string) (micrographs_used : list string) (i : nat) :
  In i (indices_of mic micrographs_used) <->
  nth_error micrographs_used i = Some mic.
Proof.
  unfold indices_of, enumerate. rewrite in_map_iff. split.
  - intros [[j e] [<- Hin]]. apply filter_In in Hin. destruct Hin as [Hin He].
    simpl in *. apply String.eqb_eq in He. subst.
    apply enumerate_from_spec in Hin. destruct Hin as [_ Hn].
    now rewrite Nat.sub_0_r in Hn.
  - intros Hn. exists (i, mic). split; [reflexivity|].
    apply filter_In. split.
    + apply enumerate_from_spec. split; [lia|]. now rewrite Nat.sub_0_r.
    + simpl. apply String.eqb_refl.
Qed.

(** ... in ascending order, each of them once. *)
Lemma indices_of_ascending (mic : string) (micrographs_used : list string) :
  StronglySorted lt (indices_of mic micrographs_used).
Proof.
  unfold indices_of, enumerate. apply StronglySorted_filter_map.
  apply enumerate_from_fst_sorted.
Qed.

Lemma ascending_nat_NoDup (l : list nat) : StronglySorted lt l -> NoDup l.
Proof.
  induction 1 as [|x l Hs IH Hall]; constructor; [|assumption].
  intros Hin. rewrite Forall_forall in Hall. specialize (Hall _ Hin). lia.
Qed.

Lemma indices_of_bound (mic : string) (micrographs_used : list string) (i : nat) :
  In i (indices_of mic micrographs_used) -> (i < List.length micrographs_used)%nat.
Proof.
  rewrite indices_of_spec. intros Hn. apply nth_error_Some. congruence.
Qed.

(** Filling the dictionary from distinct keys lists them in order. *)
Lemma fold_dict_set_fresh {V : Type} (g : string -> V) (ks : list string)
    (d : dict string V) :
  NoDup (dict_keys d ++ ks) ->
  fold_left (fun d mic => dict_set mic (g mic) d) ks d =
  d ++ map (fun mic => (mic, g mic)) ks.
Proof.
  revert d. induction ks as [|k ks IH]; intros d Hnd; simpl.
  - now rewrite app_nil_r.
  - rewrite dict_set_fresh.
    + rewrite IH.
      * now rewrite <- app_assoc.
      * unfold dict_keys in *. rewrite map_app. simpl. now rewrite <- app_assoc.
    + apply NoDup_remove_2 in Hnd. intros Hin. apply Hnd. apply in_or_app. now left.
Qed.

Lemma py_set_spec (l : list string) :
  NoDup (py_set l) /\ forall x, In x (py_set l) <-> In x l.
Proof.
  split; [apply NoDup_nodup | intros x; apply nodup_In].
Qed.

Lemma get_unique_micrographs_of_eq (elems micrographs_used : list string) :
  NoDup elems ->
  get_unique_micrographs_of elems micrographs_used =
  (py_sort elems,
   map (fun mic => (mic, indices_of mic micrographs_used)) (py_sort elems)).
Proof.
  intros Hnd. unfold get_unique_micrographs_of. f_equal.
  rewrite fold_dict_set_fresh; [reflexivity|]. simpl.
  apply ascending_NoDup. now apply py_sort_ascending.
Qed.

(** The order in which the set hands out its elements does not show. *)
Lemma get_unique_micrographs_any_order (elems micrographs_used : list string) :
  Permutation (py_set micrographs_used) elems ->
  get_unique_micrographs_of elems micrographs_used =
  get_unique_micrographs micrographs_used.
Proof.
  intros Hp. unfold get_unique_micrographs.
  destruct (py_set_spec micrographs_used) as [Hnd _].
  rewrite !get_unique_micrographs_of_eq;
    [| assumption | eapply Permutation_NoDup; eassumption].
  now rewrite (py_sort_any_order Hnd Hp).
Qed.

Lemma mic_coord_keys (micrographs_used : list string) :
  dict_keys (snd (get_unique_micrographs micrographs_used)) =
  fst (get_unique_micrographs micrographs_used).
Proof.
  unfold get_unique_micrographs.
  rewrite get_unique_micrographs_of_eq by apply py_set_spec. simpl.
  unfold dict_keys. rewrite map_map. simpl. apply map_id.
Qed.

Lemma unique_ascending (micrographs_used : list string) :
  StronglySorted str_lt (fst (get_unique_micrographs micrographs_used)).
Proof.
  unfold get_unique_micrographs.
  rewrite get_unique_micrographs_of_eq by apply py_set_spec. simpl.
  apply py_sort_ascending, py_set_spec.
Qed.

Lemma unique_In (micrographs_used : list string) (mic : string) :
  In mic (fst (get_unique_micrographs micrographs_used)) <->
  In mic micrographs_used.
Proof.
  unfold get_unique_micrographs.
  rewrite get_unique_micrographs_of_eq by apply py_set_spec. simpl.
  rewrite py_sort_in. apply py_set_spec.
Qed.

Lemma mic_coord_get (micrographs_used : list string) (mic : string) :
  dict_get mic (snd (get_unique_micrographs micrographs_used)) =
  if in_dec string_dec mic micrographs_used
  then Some (indices_of mic micrographs_used) else None.
Proof.
  destruct (in_dec string_dec mic micrographs_used) as [Hin|Hnin].
  - apply dict_In_get.
    + rewrite mic_coord_keys. apply ascending_NoDup, unique_ascending.
    + apply unique_In in Hin. revert Hin. unfold get_unique_micrographs.
      rewrite get_unique_micrographs_of_eq by apply py_set_spec. simpl.
      intros Hin. rewrite in_map_iff. now exists mic.
  - apply dict_get_None. rewrite mic_coord_keys. now rewrite unique_In.
Qed.

(** ** Lists updated by position *)

Lemma list_set_length {A : Type} (i : nat) (a : A) (l : list A) :
  List.length (list_set i a l) = List.length l.
Proof.
  revert i. induction l as [|b l IH]; intros [|i]; simpl; auto.
Qed.

Lemma nth_error_list_set {A : Type} (i j : nat) (a : A) (l : list A) :
  nth_error (list_set i a l) j =
  if (Nat.eqb i j && (i <? List.length l)%nat)%bool then Some a
  else nth_error l j.
Proof.
  revert i j. induction l as [|b l IH]; intros i j; simpl.
  - rewrite andb_false_r. now destruct i.
  - destruct i as [|i], j as [|j]; simpl; try reflexivity.
    rewrite IH. reflexivity.
Qed.

Lemma nth_error_ext {A : Type} (l1 l2 : list A) :
  (forall i, nth_error l1 i = nth_error l2 i) -> l1 = l2.
Proof.
  revert l2. induction l1 as [|a l1 IH]; intros [|b l2] Hext.
  - reflexivity.
  - specialize (Hext 0%nat). discriminate.
  - specialize (Hext 0%nat). discriminate.
  - f_equal.
    + specialize (Hext 0%nat). simpl in Hext. congruence.
    + apply IH. intros i. exact (Hext (S i)).
Qed.

Lemma Forall2_nth_left {A B : Type} (P : A -> B -> Prop) (l1 : list A)
    (l2 : list B) (i : nat) (a : A) :
  Forall2 P l1 l2 -> nth_error l1 i = Some a ->
  exists b, nth_error l2 i = Some b /\ P a b.
Proof.
  intros Hall. revert i. induction Hall as [|x y l1 l2 Hxy Hall IH];
    intros [|i] Hn; simpl in *; try discriminate.
  - injection Hn as <-. now exists y.
  - now apply IH.
Qed.

(** ** Schedules *)

Lemma remove_nth_perm {A : Type} (k : nat) (l : list A) (d : A) :
  (k < List.length l)%nat -> Permutation l (nth k l d :: remove_nth k l).
Proof.
  revert k. induction l as [|a l IH]; intros k Hk; simpl in *; [lia|].
  destruct k as [|k]; [reflexivity|].
  etransitivity; [apply perm_skip, (IH k); lia | apply perm_swap].
Qed.

Lemma remove_nth_length {A : Type} (k : nat) (l : list A) :
  (k < List.length l)%nat -> S (List.length (remove_nth k l)) = List.length l.
Proof.
  revert k. induction l as [|a l IH]; intros k Hk; simpl in *; [lia|].
  destruct k as [|k]; [reflexivity|]. simpl. rewrite IH; lia.
Qed.

(** Every schedule completes every pending task once. *)
Lemma completion_order_perm (choices pending : list nat) :
  Permutation pending
    (completion_order (List.length pending) choices pending).
Proof.
  remember (List.length pending) as n eqn:Hn.
  revert choices pending Hn.
  induction n as [|n IH]; intros choices pending Hn.
  - destruct pending; [constructor | discriminate].
  - destruct pending as [|p0 pending']; [discriminate|].
    cbn [completion_order].
    set (k := Nat.modulo (hd 0%nat choices) (List.length (p0 :: pending'))).
    assert (Hk : (k < List.length (p0 :: pending'))%nat).
    { apply Nat.mod_upper_bound. simpl. lia. }
    rewrite (@remove_nth_perm _ k (p0 :: pending') p0 Hk) at 1.
    constructor. apply IH.
    pose proof (@remove_nth_length _ k (p0 :: pending') Hk) as Hl. lia.
Qed.

(** Conversely every order of completion is the order of a schedule. *)
Lemma completion_order_complete (order : list nat) :
  forall pending, Permutation pending order -> NoDup pending ->
  exists choices,
    completion_order (List.length pending) choices pending = order.
Proof.
  induction order as [|i order IH]; intros pending Hp Hnd.
  - apply Permutation_sym, Permutation_nil in Hp. subst. now exists [].
  - assert (Hin : In i pending).
    { apply (Permutation_in _ (Permutation_sym Hp)). now left. }
    destruct (In_nth _ _ 0%nat Hin) as [k [Hk Hnth]].
    assert (Hrem : Permutation (remove_nth k pending) order).
    { apply (Permutation_cons_inv (a := i)).
      rewrite <- Hnth at 1. rewrite <- (@remove_nth_perm _ k pending 0%nat Hk). exact Hp. }
    assert (Hnd' : NoDup (remove_nth k pending)).
    { pose proof (@remove_nth_perm _ k pending 0%nat Hk) as Hq.
      apply (Permutation_NoDup Hq) in Hnd. now inversion Hnd. }
    destruct (IH _ Hrem Hnd') as [choices Hc].
    exists (k :: choices).
    destruct pending as [|p0 pending']; [simpl in Hk; lia|].
    change (List.length (p0 :: pending')) with (S (List.length pending')) at 1.
    cbn [completion_order hd tl].
    rewrite (Nat.mod_small _ _ Hk).
    pose proof (@remove_nth_length _ k (p0 :: pending') Hk) as Hl.
    replace (List.length pending') with
      (List.length (remove_nth k (p0 :: pending'))) by (simpl in Hl; lia).
    rewrite Hc. f_equal.
    rewrite <- Hnth. apply nth_indep. exact Hk.
Qed.

(** ** The pool *)

Section PoolFacts.
Context {T R : Type}.
Variable f : T -> result R.
Variable tasks : list T.

Lemma complete_failure_sticky (st : @pool_state R) (i : nat) :
  failure st <> None -> failure (complete f tasks st i) <> None.
Proof.
  unfold complete. intros Hf.
  destruct (nth_error tasks i); [|assumption].
  destruct (f t), (failure st) eqn:E; simpl; congruence.
Qed.

Lemma fold_failure_sticky (order : list nat) (st : @pool_state R) :
  failure st <> None ->
  failure (fold_left (complete f tasks) order st) <> None.
Proof.
  revert st. induction order as [|i order IH]; intros st Hf; simpl;
    [assumption|].
  apply IH. now apply complete_failure_sticky.
Qed.

(** A task that raises leaves the pool with a stored exception, wherever
    it comes in the order of completion. *)
Lemma fold_failure (order : list nat) (st : @pool_state R) (i : nat) (t : T)
    (e : exn) :
  In i order -> nth_error tasks i = Some t -> f t = Raise e ->
  failure (fold_left (complete f tasks) order st) <> None.
Proof.
  revert st. induction order as [|j order IH]; intros st Hin Ht He;
    simpl in *; [tauto|].
  destruct Hin as [-> | Hin]; [|now apply IH].
  apply fold_failure_sticky. unfold complete. rewrite Ht, He.
  destruct (failure st) eqn:E; simpl; congruence.
Qed.

(** While every completed task has returned, the slots of the completed
    tasks hold their results and the other slots are untouched. *)
Lemma fold_success (rs : list R) (order : list nat) (st : @pool_state R) :
  Forall2 (fun t r => f t = Ok r) tasks rs ->
  failure st = None ->
  List.length (slots st) = List.length tasks ->
  let st' := fold_left (complete f tasks) order st in
  failure st' = None /\
  List.length (slots st') = List.length tasks /\
  forall i, nth_error (slots st') i =
            if existsb (Nat.eqb i) order
            then (if (i <? List.length tasks)%nat
                  then option_map Some (nth_error rs i)
                  else nth_error (slots st) i)
            else nth_error (slots st) i.
Proof.
  intros Hall. revert st.
  induction order as [|j order IH]; intros st Hf Hlen; simpl.
  - repeat split; assumption.
  - assert (Hstep : failure (complete f tasks st j) = None /\
                    List.length (slots (complete f tasks st j)) = List.length tasks /\
                    forall i, nth_error (slots (complete f tasks st j)) i =
                              if (Nat.eqb j i && (j <? List.length tasks)%nat)%bool
                              then option_map Some (nth_error rs i)
                              else nth_error (slots st) i).
    { unfold complete. destruct (nth_error tasks j) as [t|] eqn:Ht.
      - destruct (Forall2_nth_left _ Hall Ht) as [r [Hr Hfr]].
        rewrite Hfr, Hf. simpl. repeat split.
        + now rewrite list_set_length.
        + intros i. rewrite nth_error_list_set, Hlen.
          destruct (Nat.eqb_spec j i) as [->|]; simpl; [|reflexivity].
          destruct (i <? List.length tasks)%nat; [|reflexivity].
          now rewrite Hr.
      - repeat split; try assumption. intros i.
        apply nth_error_None in Ht.
        destruct (Nat.ltb_spec j (List.length tasks)); [lia|].
        now rewrite andb_false_r. }
    destruct Hstep as [Hf' [Hlen' Hsl]].
    destruct (IH _ Hf' Hlen') as [Hf'' [Hlen'' Hsl'']].
    repeat split; try assumption.
    intros i. rewrite Hsl'', Hsl. rewrite (Nat.eqb_sym i j).
    destruct (Nat.eqb_spec j i) as [->|Hne]; simpl;
      destruct (existsb (Nat.eqb i) order);
      destruct (i <? List.length tasks)%nat; reflexivity.
Qed.

Lemma collect_map_Some (rs : list R) : collect (map Some rs) = Ok rs.
Proof. induction rs as [|r rs IH]; simpl; [reflexivity|]. now rewrite IH. Qed.

Lemma starmap_returns (rs : list R) (choices : list nat) :
  Forall2 (fun t r => f t = Ok r) tasks rs ->
  starmap f tasks choices = Ok rs.
Proof.
  intros Hall. unfold starmap.
  set (order := completion_order _ _ _).
  destruct (@fold_success rs order
              {| slots := repeat None (List.length tasks); failure := None |}
              Hall eq_refl (repeat_length _ _)) as [Hf [Hlen Hsl]].
  rewrite Hf.
  assert (Hperm : Permutation (seq 0 (List.length tasks)) order).
  { pose proof (completion_order_perm choices (seq 0 (List.length tasks)))
      as Hp. now rewrite length_seq in Hp. }
  replace (slots _) with (map Some rs); [apply collect_map_Some|].
  apply nth_error_ext. intros i. rewrite Hsl. simpl.
  rewrite nth_error_map.
  pose proof (Forall2_length Hall) as Hlr.
  destruct (Nat.ltb_spec i (List.length tasks)) as [Hlt|Hge].
  - destruct (existsb (Nat.eqb i) order) eqn:Ex; [reflexivity|].
    exfalso. assert (Hin : In i order).
    { apply (Permutation_in _ Hperm). apply in_seq. lia. }
    assert (existsb (Nat.eqb i) order = true); [|congruence].
    apply existsb_exists. exists i. split; [assumption | apply Nat.eqb_refl].
  - assert (nth_error rs i = None) as -> by (apply nth_error_None; lia).
    destruct (existsb (Nat.eqb i) order); simpl; symmetry;
      apply nth_error_None; rewrite repeat_length; lia.
Qed.

Lemma all_return (l : list T) :
  (forall t, In t l -> exists r, f t = Ok r) ->
  exists rs, Forall2 (fun t r => f t = Ok r) l rs.
Proof.
  induction l as [|t l IH]; intros Hall.
  - exists []. constructor.
  - destruct (Hall t (or_introl eq_refl)) as [r Hr].
    destruct IH as [rs Hrs]; [intros; apply Hall; now right|].
    exists (r :: rs). now constructor.
Qed.

(** [starmap] returns exactly when every task returns, and then with the
    results in the order of the tasks, whatever the schedule. *)
Lemma starmap_Ok_iff (rs : list R) (choices : list nat) :
  starmap f tasks choices = Ok rs <->
  Forall2 (fun t r => f t = Ok r) tasks rs.
Proof.
  split; [|intros; now apply starmap_returns].
  intros Hs.
  assert (Hall : forall t, In t tasks -> exists r, f t = Ok r).
  { intros t Hin. destruct (f t) as [r|e] eqn:E; [now exists r|].
    exfalso. destruct (In_nth_error _ _ Hin) as [i Hi].
    unfold starmap in Hs.
    set (order := completion_order _ _ _) in Hs.
    assert (Hio : In i order).
    { pose proof (completion_order_perm choices (seq 0 (List.length tasks)))
        as Hp. rewrite length_seq in Hp. apply (Permutation_in _ Hp).
      apply in_seq. split; [lia|]. simpl. apply nth_error_Some. congruence. }
    pose proof (@fold_failure order
                  {| slots := repeat None (List.length tasks); failure := None |}
                  i t e Hio Hi E) as Hf.
    destruct (failure _); [discriminate | congruence]. }
  destruct (all_return _ Hall) as [rs' Hrs'].
  pose proof (starmap_returns choices Hrs') as Hs'.
  congruence.
Qed.

Lemma starmap_schedule_free (choices1 choices2 : list nat) :
  match starmap f tasks choices1, starmap f tasks choices2 with
  | Ok rs1, Ok rs2 => rs1 = rs2
  | Raise _, Raise _ => True
  | _, _ => False
  end.
Proof.
  destruct (starmap f tasks choices1) as [rs1|e1] eqn:E1;
    destruct (starmap f tasks choices2) as [rs2|e2] eqn:E2; trivial.
  - apply starmap_Ok_iff in E1. apply (starmap_returns choices2) in E1.
    congruence.
  - apply starmap_Ok_iff in E1. apply (starmap_returns choices2) in E1.
    congruence.
  - apply starmap_Ok_iff in E2. apply (starmap_returns choices1) in E2.
    congruence.
Qed.
End PoolFacts.

(** ** Loops *)

Lemma for_each_app {A S : Type} (body : S -> A -> result S) (l1 l2 : list A)
    (s : S) :
  for_each body (l1 ++ l2) s = (s' <- for_each body l1 s ;; for_each body l2 s').
Proof.
  revert s. induction l1 as [|a l1 IH]; intros s; simpl; [reflexivity|].
  destruct (body s a); simpl; [apply IH | reflexivity].
Qed.

(** ** The table and its label column *)

Lemma set_scalar_with_labels (z : Z) (t : DataFrame) :
  set_scalar_column "ibIceGroup" z t = with_labels (repeat z (index t)) t.
Proof. reflexivity. Qed.

Lemma labels_of_with_labels (labels : list Z) (t : DataFrame) :
  labels_of (with_labels labels t) = Some labels.
Proof. unfold labels_of, with_labels. simpl. now rewrite dict_get_set_same. Qed.

Lemma with_labels_get (labels : list Z) (t : DataFrame) (name : string) :
  name <> "ibIceGroup"%string ->
  dict_get name (columns (with_labels labels t)) = dict_get name (columns t).
Proof. intros Hne. simpl. now apply dict_get_set_other. Qed.

Lemma with_labels_twice (l1 l2 : list Z) (t : DataFrame) :
  with_labels l2 (with_labels l1 t) = with_labels l2 t.
Proof. unfold with_labels. simpl. now rewrite dict_set_set. Qed.

Lemma at_set_with_labels (part_ind : nat) (ice_group : Z) (labels : list Z)
    (t : DataFrame) :
  at_set part_ind ice_group (with_labels labels t) =
  if (part_ind <? List.length labels)%nat
  then if int64 ice_group
       then Ok (with_labels (list_set part_ind ice_group labels) t)
       else Raise OverflowError
  else Raise NotModelled.
Proof.
  unfold at_set. simpl. rewrite dict_get_set_same.
  destruct (part_ind <? List.length labels)%nat; [|reflexivity].
  destruct (int64 ice_group); [|reflexivity].
  unfold with_labels. simpl. now rewrite dict_set_set.
Qed.

Lemma in_table_rows (n : nat) (items : list (nat * Z)) :
  in_table n items = true ->
  forallb (fun kv => (fst kv <? n)%nat) items = true.
Proof.
  unfold in_table. rewrite !forallb_forall. intros Hall kv Hkv.
  specialize (Hall kv Hkv). unfold item_fits in Hall.
  now apply andb_prop in Hall.
Qed.

Lemma in_table_split (n : nat) (items : list (nat * Z)) :
  in_table n items =
  forallb (fun kv : nat * Z => (fst kv <? n)%nat) items &&
  forallb (fun kv : nat * Z => int64 (snd kv)) items.
Proof.
  unfold in_table, item_fits.
  induction items as [|kv items IH]; cbn [forallb]; [reflexivity|].
  rewrite IH.
  destruct (fst kv <? n)%nat; destruct (int64 (snd kv)); cbn [andb];
    try reflexivity.
  now rewrite Bool.andb_false_r.
Qed.

Lemma in_table_app (n : nat) (items1 items2 : list (nat * Z)) :
  in_table n (items1 ++ items2) = in_table n items1 && in_table n items2.
Proof. unfold in_table. apply forallb_app. Qed.

Lemma apply_error_app (n : nat) (items1 items2 : list (nat * Z)) :
  apply_error n (items1 ++ items2) =
  if in_table n items1 then apply_error n items2 else apply_error n items1.
Proof.
  unfold apply_error, in_table.
  induction items1 as [|kv items1 IH]; simpl; [reflexivity|].
  destruct (item_fits n kv); simpl; [exact IH | reflexivity].
Qed.

Lemma assign_all_length (items : list (nat * Z)) (labels : list Z) :
  List.length (assign_all items labels) = List.length labels.
Proof.
  revert labels. induction items as [|[k v] items IH]; intros labels; simpl;
    [reflexivity|].
  unfold assign_all in *. simpl. now rewrite IH, list_set_length.
Qed.

Lemma assign_all_app (items1 items2 : list (nat * Z)) (labels : list Z) :
  assign_all (items1 ++ items2) labels =
  assign_all items2 (assign_all items1 labels).
Proof. unfold assign_all. apply fold_left_app. Qed.

(** Writing a result mapping goes through when its rows are rows of the
    table, and assigns its items in order. *)
Lemma apply_with_labels (result_ : dict nat Z) (labels : list Z)
    (t : DataFrame) :
  apply_ice_group_to_particles result_ (with_labels labels t) =
  if in_table (List.length labels) result_
  then Ok (with_labels (assign_all result_ labels) t)
  else Raise (apply_error (List.length labels) result_).
Proof.
  unfold apply_ice_group_to_particles, in_table, apply_error.
  revert labels. induction result_ as [|[k v] r IH]; intros labels;
    cbn [for_each forallb find]; [reflexivity|].
  cbn [fst snd]. rewrite at_set_with_labels.
  assert (Hf : item_fits (List.length labels) (k, v)
               = ((k <? List.length labels)%nat && int64 v)%bool)
    by reflexivity.
  rewrite !Hf.
  destruct (k <? List.length labels)%nat eqn:E; destruct (int64 v);
    cbn [andb negb bind fst]; rewrite ?E; try reflexivity.
  rewrite IH, list_set_length. reflexivity.
Qed.

Lemma apply_all_with_labels (results : list (dict nat Z)) (labels : list Z)
    (t : DataFrame) :
  for_each (fun p r => apply_ice_group_to_particles r p) results
           (with_labels labels t) =
  if in_table (List.length labels) (List.concat results)
  then Ok (with_labels (assign_all (List.concat results) labels) t)
  else Raise (apply_error (List.length labels) (List.concat results)).
Proof.
  revert labels. induction results as [|r results IH]; intros labels;
    cbn [for_each List.concat]; [reflexivity|].
  rewrite apply_with_labels, in_table_app, apply_error_app.
  destruct (in_table (List.length labels) r); cbn [andb bind]; [|reflexivity].
  rewrite IH, assign_all_length, assign_all_app. reflexivity.
Qed.

(** A row that no item names keeps its label; a row whose items all carry
    [v] ends with [v]. *)
Lemma assign_all_nth (items : list (nat * Z)) (labels : list Z) (i : nat)
    (v : Z) :
  (forall v', In (i, v') items -> v' = v) ->
  forallb (fun kv => (fst kv <? List.length labels)%nat) items = true ->
  nth_error (assign_all items labels) i =
  if existsb (fun kv => Nat.eqb (fst kv) i) items then Some v
  else nth_error labels i.
Proof.
  revert labels. induction items as [|[k v'] items IH]; intros labels Hv Hb;
    simpl in *; [reflexivity|].
  apply andb_prop in Hb. destruct Hb as [Hk Hb].
  unfold assign_all in *. simpl. rewrite IH.
  - destruct (existsb _ items); [now rewrite orb_true_r|].
    rewrite orb_false_r, nth_error_list_set, Hk, andb_true_r.
    destruct (Nat.eqb_spec k i) as [->|]; [|reflexivity].
    f_equal. apply Hv. now left.
  - intros w Hw. apply Hv. now right.
  - now rewrite list_set_length.
Qed.

Lemma existsb_key_false (items : list (nat * Z)) (i : nat) :
  existsb (fun kv => Nat.eqb (fst kv) i) items = false <->
  ~ In i (map fst items).
Proof.
  rewrite <- not_true_iff_false, existsb_exists, in_map_iff.
  split; intros Hn [kv Hkv]; apply Hn; exists kv.
  - destruct Hkv as [<- Hin]. split; [assumption | apply Nat.eqb_refl].
  - destruct Hkv as [Hin He]. apply Nat.eqb_eq in He. tauto.
Qed.

(** ** The task *)

Section TaskFacts.
Variables prec emax : Z.
Variable image : Type.
Variable load_img : string -> result image.
Variable ice_grouper : image -> Z -> Z -> Z -> result (option ndarray).
Variable starfile_write : document -> string -> result unit.

(** The loop body looks up the decision for the row and stores it. *)
Lemma label_particle_label_at (particles : DataFrame)
    (seg_img : option ndarray) (ice_group : dict nat Z) (part_ind : nat) :
  label_particle prec emax particles seg_img ice_group part_ind =
  (o <- label_at prec emax particles seg_img part_ind ;;
   Ok (match o with
       | Some group => dict_set part_ind group ice_group
       | None => ice_group
       end)).
Proof.
  unfold label_particle, label_at.
  destruct (pixel particles "rlnCoordinateX" part_ind); simpl; [|reflexivity].
  destruct (pixel particles "rlnCoordinateY" part_ind); simpl; [|reflexivity].
  destruct seg_img as [arr|]; [|reflexivity].
  destruct (py_index arr a0); simpl; [|reflexivity].
  destruct (py_index a1 a); simpl; [|reflexivity].
  destruct (PyNum.isfinite a2); [|reflexivity].
  destruct (PyNum.py_int _); reflexivity.
Qed.

Lemma process_particle_icethickness_eq (particles : DataFrame)
    (mic_coord : dict string (list nat)) (args : Args) (mic : string) :
  process_particle_icethickness prec emax load_img ice_grouper
    particles mic_coord args mic =
  (seg_img <- segment_of load_img ice_grouper args mic ;;
   part_inds <- dict_item mic mic_coord ;;
   for_each (label_particle prec emax particles seg_img) part_inds []).
Proof.
  unfold process_particle_icethickness, segment_of.
  destruct (load_img mic); reflexivity.
Qed.

(** The label of a row does not read the label column. *)
Lemma pixel_with_labels (labels : list Z) (t : DataFrame) (name : string)
    (part_ind : nat) :
  name <> "ibIceGroup"%string ->
  pixel (with_labels labels t) name part_ind = pixel t name part_ind.
Proof.
  intros Hne. unfold pixel, dict_item.
  now rewrite with_labels_get.
Qed.

Lemma label_at_with_labels (labels : list Z) (t : DataFrame)
    (seg_img : option ndarray) (part_ind : nat) :
  label_at prec emax (with_labels labels t) seg_img part_ind =
  label_at prec emax t seg_img part_ind.
Proof.
  unfold label_at. now rewrite !pixel_with_labels by discriminate.
Qed.

Lemma cell_read_with_labels (labels : list Z) (t : DataFrame)
    (seg_img : ndarray) (part_ind : nat) :
  cell_read (with_labels labels t) seg_img part_ind =
  cell_read t seg_img part_ind.
Proof.
  unfold cell_read. now rewrite !pixel_with_labels by discriminate.
Qed.

(** The decision through the cell that is read. *)
Lemma label_at_cell (particles : DataFrame) (arr : ndarray) (part_ind : nat) :
  label_at prec emax particles (Some arr) part_ind =
  (v <- cell_read particles arr part_ind ;;
   if PyNum.isfinite v
   then group <- PyNum.py_int (PyNum.mul_int prec emax v 10000) ;;
        Ok (Some group)
   else Ok None).
Proof.
  unfold label_at, cell_read.
  destruct (pixel particles "rlnCoordinateX" part_ind); simpl; [|reflexivity].
  destruct (pixel particles "rlnCoordinateY" part_ind); simpl; [|reflexivity].
  destruct (py_index arr a0); reflexivity.
Qed.

Section Loop.
Variable particles : DataFrame.
Variable seg_img : option ndarray.

Local Abbreviation decide := (label_at prec emax particles seg_img).
Local Abbreviation body := (label_particle prec emax particles seg_img).

(** The loop returns when the body decides for every row of the list,
    and then each row of the list has its decision stored; the other
    keys are as before. *)
Lemma loop_returns (part_inds : list nat) (d0 d : dict nat Z) :
  for_each body part_inds d0 = Ok d ->
  (forall i, In i part_inds ->
     exists o, decide i = Ok o /\
       dict_get i d = match o with
                      | Some group => Some group
                      | None => dict_get i d0
                      end) /\
  (forall i, ~ In i part_inds -> dict_get i d = dict_get i d0).
Proof.
  revert d0. induction part_inds as [|a l IH]; intros d0; simpl.
  - intros [= <-]. split; [tauto | reflexivity].
  - rewrite label_particle_label_at.
    destruct (decide a) as [o|e] eqn:Ho; simpl; [|discriminate].
    intros Hl. destruct (IH _ Hl) as [Hin Hout]. split.
    + intros i [<- | Hi].
      * exists o. split; [assumption|].
        destruct (in_dec Nat.eq_dec a l) as [Hal | Hal].
        -- destruct (Hin _ Hal) as [o' [Ho' Hg]].
           assert (o' = o) as -> by congruence.
           rewrite Hg. destruct o; [reflexivity|reflexivity].
        -- rewrite (Hout _ Hal). destruct o; [|reflexivity].
           apply dict_get_set_same.
      * destruct (Hin _ Hi) as [o' [Ho' Hg]]. exists o'.
        split; [assumption|]. rewrite Hg. destruct o'; [reflexivity|].
        destruct o as [g|]; [|reflexivity].
        destruct (Nat.eq_dec i a) as [->|Hne].
        -- congruence.
        -- now apply dict_get_set_other.
    + intros i Hni. rewrite Hout by tauto.
      destruct o; [|reflexivity].
      apply dict_get_set_other. intros ->. tauto.
Qed.

Lemma loop_progress (part_inds : list nat) (d0 : dict nat Z) :
  (forall i, In i part_inds -> is_ok (decide i) = true) ->
  exists d, for_each body part_inds d0 = Ok d.
Proof.
  revert d0. induction part_inds as [|a l IH]; intros d0 Hall; simpl.
  - now exists d0.
  - rewrite label_particle_label_at.
    pose proof (Hall a (or_introl eq_refl)) as Ha.
    destruct (decide a) as [o|e]; [|discriminate]. simpl.
    apply IH. intros i Hi. apply Hall. now right.
Qed.

(** One row without a decision ends the loop with an exception. *)
Lemma loop_raises (part_inds : list nat) (d0 : dict nat Z) (i : nat) :
  In i part_inds -> is_ok (decide i) = false ->
  is_ok (for_each body part_inds d0) = false.
Proof.
  intros Hi Hd. destruct (for_each body part_inds d0) as [d|e] eqn:E;
    [|reflexivity].
  destruct (loop_returns _ _ E) as [Hin _].
  destruct (Hin _ Hi) as [o [Ho _]].
  rewrite Ho in Hd. discriminate.
Qed.
End Loop.
End TaskFacts.

(** ** Loading *)

Lemma load_star_file_cases (star_file : document) :
  load_star_file star_file =
  match dict_get "particles"%string star_file with
  | None => ([], Raise KeyError)
  | Some t =>
      let particles := with_labels (repeat (-1)%Z (index t)) t in
      match dict_get "rlnMicrographName"%string (columns t) with
      | Some micrographs_used =>
          ([], Ok (dict_set "particles"%string particles star_file,
                   particles, micrographs_used))
      | None => ([no_micrograph_name], Raise (SystemExit None))
      end
  end.
Proof.
  unfold load_star_file, dict_item.
  destruct (dict_get "particles"%string star_file) as [t|]; [|reflexivity].
  rewrite set_scalar_with_labels.
  rewrite with_labels_get by discriminate. reflexivity.
Qed.

Lemma dict_keys_NoDup_set {V : Type} (k : nat) (v : V) (d : dict nat V) :
  NoDup (dict_keys d) -> NoDup (dict_keys (dict_set k v d)).
Proof.
  intros Hnd. rewrite dict_keys_set. unfold dict_mem.
  destruct (dict_get k d) eqn:E; [assumption|].
  apply dict_get_None in E.
  apply NoDup_rev in Hnd. rewrite <- (rev_involutive (_ ++ _)).
  apply NoDup_rev. rewrite rev_app_distr. simpl. constructor; [|assumption].
  now rewrite <- in_rev.
Qed.

Section MainFacts.
Variables prec emax : Z.
Variable image : Type.
Variable load_img : string -> result image.
Variable ice_grouper : image -> Z -> Z -> Z -> result (option ndarray).
Variable starfile_write : document -> string -> result unit.

Local Abbreviation task := (process_particle_icethickness prec emax load_img ice_grouper).
Local Abbreviation the_main :=
  (main prec emax load_img ice_grouper starfile_write).
Local Abbreviation segment := (segment_of load_img ice_grouper).

Lemma loop_keys_NoDup (particles : DataFrame) (seg_img : option ndarray)
    (part_inds : list nat) (d0 d : dict nat Z) :
  for_each (label_particle prec emax particles seg_img) part_inds d0 = Ok d ->
  NoDup (dict_keys d0) -> NoDup (dict_keys d).
Proof.
  revert d0. induction part_inds as [|a l IH]; intros d0; simpl.
  - now intros [= <-].
  - rewrite label_particle_label_at.
    destruct (label_at prec emax particles seg_img a) as [o|e]; simpl;
      [|discriminate].
    intros Hl Hnd. apply (IH _ Hl).
    destruct o; [now apply dict_keys_NoDup_set | assumption].
Qed.

Section Grouped.
(** The table as loaded, and the grouping of its rows. *)
Variable t : DataFrame.
Variable names : list string.
Variable args : Args.

Local Abbreviation particles := (with_labels (repeat (-1)%Z (index t)) t).
Local Abbreviation micrographs_unique := (fst (get_unique_micrographs names)).
Local Abbreviation mic_coord := (snd (get_unique_micrographs names)).

(** What a task that returns has computed. *)
Lemma task_returns (mic : string) (r : dict nat Z) :
  In mic names ->
  task particles mic_coord args mic = Ok r ->
  exists seg_img,
    segment args mic = Ok seg_img /\
    NoDup (dict_keys r) /\
    (forall i, nth_error names i = Some mic ->
       exists o, label_at prec emax t seg_img i = Ok o /\
                 dict_get i r = o) /\
    (forall i, nth_error names i <> Some mic -> dict_get i r = None).
Proof.
  intros Hin. rewrite process_particle_icethickness_eq.
  destruct (segment args mic) as [seg_img|e]; cbn [bind]; [|discriminate].
  unfold dict_item. rewrite mic_coord_get.
  destruct (in_dec string_dec mic names) as [_|Hn]; [|tauto].
  cbn [bind]. intros Hl. exists seg_img. split; [reflexivity|].
  split; [eapply loop_keys_NoDup; [exact Hl | constructor]|].
  destruct (loop_returns _ _ _ _ _ _ Hl) as [Hi Ho]. split.
  - intros i Hn. apply indices_of_spec in Hn.
    destruct (Hi _ Hn) as [o [Hd Hg]]. exists o.
    rewrite label_at_with_labels in Hd.
    split; [assumption|]. rewrite Hg. now destruct o.
  - intros i Hn. rewrite Ho; [reflexivity|].
    now rewrite indices_of_spec.
Qed.

Lemma task_progress (mic : string) :
  In mic names ->
  (forall seg_img, segment args mic = Ok seg_img ->
     forall i, nth_error names i = Some mic ->
       is_ok (label_at prec emax t seg_img i) = true) ->
  is_ok (segment args mic) = true ->
  exists r, task particles mic_coord args mic = Ok r.
Proof.
  intros Hin Hall Hseg. rewrite process_particle_icethickness_eq.
  destruct (segment args mic) as [seg_img|e]; [|discriminate]. cbn [bind].
  unfold dict_item. rewrite mic_coord_get.
  destruct (in_dec string_dec mic names) as [_|Hn]; [|tauto].
  cbn [bind]. apply loop_progress. intros i Hi.
  rewrite label_at_with_labels. apply (Hall _ eq_refl).
  now apply indices_of_spec.
Qed.

Variable results : list (dict nat Z).
Hypothesis Hresults :
  Forall2 (fun mic r => task particles mic_coord args mic = Ok r)
          micrographs_unique results.

Lemma item_origin (k : nat) (v : Z) :
  In (k, v) (List.concat results) ->
  exists mic seg_img,
    nth_error names k = Some mic /\
    segment args mic = Ok seg_img /\
    label_at prec emax t seg_img k = Ok (Some v).
Proof.
  intros Hin. apply in_concat in Hin. destruct Hin as [r [Hr Hkv]].
  destruct (In_nth_error _ _ Hr) as [j Hj].
  destruct (Forall2_nth_left _ (Forall2_flip Hresults) Hj)
    as [mic [Hm Ht]].
  apply nth_error_In in Hm.
  assert (Hmn : In mic names) by now apply unique_In.
  destruct (@task_returns mic r Hmn Ht) as [seg_img [Hs [Hnd [Hyes Hno]]]].
  apply (@dict_In_get _ _ _ k v r Hnd) in Hkv.
  exists mic, seg_img.
  destruct (nth_error names k) as [m|] eqn:Hk.
  - destruct (string_dec m mic) as [->|Hne].
    + destruct (Hyes _ Hk) as [o [Ho Hg]]. repeat split; congruence.
    + rewrite Hno in Hkv by congruence. discriminate.
  - rewrite Hno in Hkv by congruence. discriminate.
Qed.

Lemma item_of_label (i : nat) (mic : string) (seg_img : option ndarray)
    (v : Z) :
  nth_error names i = Some mic ->
  segment args mic = Ok seg_img ->
  label_at prec emax t seg_img i = Ok (Some v) ->
  In (i, v) (List.concat results).
Proof.
  intros Hi Hs Hl.
  assert (Hmn : In mic names) by (eapply nth_error_In; eassumption).
  assert (Hmu : In mic micrographs_unique) by now apply unique_In.
  destruct (In_nth_error _ _ Hmu) as [j Hj].
  destruct (Forall2_nth_left _ Hresults Hj) as [r [Hr Ht]].
  destruct (@task_returns mic r Hmn Ht) as [seg' [Hs' [Hnd [Hyes _]]]].
  destruct (Hyes _ Hi) as [o [Ho Hg]].
  assert (o = Some v) as -> by congruence.
  apply in_concat. exists r. split.
  - eapply nth_error_In; eassumption.
  - now apply dict_get_In.
Qed.

(** The label column once every result mapping is written. *)
Lemma final_labels (i : nat) (labels0 : list Z) :
  forallb (fun kv => (fst kv <? List.length labels0)%nat)
          (List.concat results) = true ->
  match nth_error names i with
  | Some mic =>
      exists seg_img o,
        segment args mic = Ok seg_img /\
        label_at prec emax t seg_img i = Ok o /\
        nth_error (assign_all (List.concat results) labels0) i =
        match o with
        | Some group => Some group
        | None => nth_error labels0 i
        end
  | None =>
      nth_error (assign_all (List.concat results) labels0) i =
      nth_error labels0 i
  end.
Proof.
  intros Hb. destruct (nth_error names i) as [mic|] eqn:Hi.
  - assert (Hmn : In mic names) by (eapply nth_error_In; eassumption).
    assert (Hmu : In mic micrographs_unique) by now apply unique_In.
    destruct (In_nth_error _ _ Hmu) as [j Hj].
    destruct (Forall2_nth_left _ Hresults Hj) as [r [Hr Ht]].
    destruct (@task_returns mic r Hmn Ht) as [seg_img [Hs [Hnd [Hyes _]]]].
    destruct (Hyes _ Hi) as [o [Ho Hg]].
    exists seg_img, o. repeat split; try assumption.
    destruct o as [g|].
    + rewrite (@assign_all_nth _ _ i g); [| |assumption].
      * assert (Hex : existsb (fun kv => Nat.eqb (fst kv) i)
                        (List.concat results) = true).
        { apply existsb_exists. exists (i, g). split; [|apply Nat.eqb_refl].
          eapply item_of_label; eassumption. }
        now rewrite Hex.
      * intros v' Hv'. destruct (@item_origin i v' Hv')
          as [mic' [seg' [Hi' [Hs' Hl']]]]. congruence.
    + rewrite (@assign_all_nth _ _ i 0%Z); [| |assumption].
      * assert (Hex : existsb (fun kv => Nat.eqb (fst kv) i)
                        (List.concat results) = false).
        { apply existsb_key_false. rewrite in_map_iff.
          intros [[k v] [Hk Hin]]. simpl in Hk. subst k.
          destruct (@item_origin i v Hin) as [mic' [seg' [Hi' [Hs' Hl']]]].
          congruence. }
        now rewrite Hex.
      * intros v' Hv'. destruct (@item_origin i v' Hv')
          as [mic' [seg' [Hi' [Hs' Hl']]]]. congruence.
  - rewrite (@assign_all_nth _ _ i 0%Z); [| |assumption].
    + assert (Hex : existsb (fun kv => Nat.eqb (fst kv) i)
                      (List.concat results) = false).
      { apply existsb_key_false. rewrite in_map_iff.
        intros [[k v] [Hk Hin]]. simpl in Hk. subst k.
        destruct (@item_origin i v Hin) as [mic' [seg' [Hi' _]]].
        congruence. }
      now rewrite Hex.
    + intros v' Hv'. destruct (@item_origin i v' Hv')
        as [mic' [seg' [Hi' _]]]. congruence.
Qed.

(** Every row a result mapping names is a row of the identifier
    column. *)
Lemma items_in_range (k : nat) (v : Z) :
  In (k, v) (List.concat results) -> (k < List.length names)%nat.
Proof.
  intros Hin. destruct (@item_origin k v Hin) as [mic [_ [Hk _]]].
  apply nth_error_Some. congruence.
Qed.
End Grouped.
End MainFacts.

(** ** The run *)

Section RunFacts.
Variables prec emax : Z.
Variable image : Type.
Variable load_img : string -> result image.
Variable ice_grouper : image -> Z -> Z -> Z -> result (option ndarray).
Variable starfile_write : document -> string -> result unit.

Local Abbreviation task := (process_particle_icethickness prec emax load_img ice_grouper).
Local Abbreviation the_main :=
  (main prec emax load_img ice_grouper starfile_write).
Local Abbreviation segment := (segment_of load_img ice_grouper).

(** The script, branch by branch, for any order of the set. *)
Lemma script_cases (set_list : list string -> list string)
    (pool : DataFrame -> dict string (list nat) -> Args -> list string ->
            result (list (dict nat Z)))
    (args : Args) (star_file : document) :
  (forall l, Permutation (py_set l) (set_list l)) ->
  script starfile_write set_list pool args star_file =
  match dict_get "particles"%string star_file with
  | None => stopped [] [] KeyError
  | Some t =>
      match dict_get "rlnMicrographName"%string (columns t) with
      | None => stopped [no_micrograph_name] [] (SystemExit None)
      | Some c =>
          match column_strings c with
          | Raise e => stopped [] [] e
          | Ok names =>
              let particles := with_labels (repeat (-1)%Z (index t)) t in
              let micrographs_unique := fst (get_unique_micrographs names) in
              let mic_coord := snd (get_unique_micrographs names) in
              if (cpus args <? 1)%Z then stopped [] [] ValueError
              else
                match pool particles mic_coord args micrographs_unique with
                | Raise e => stopped [] micrographs_unique e
                | Ok results =>
                    if in_table (index t) (List.concat results)
                    then
                      let out :=
                        dict_set "particles"%string
                          (with_labels
                             (assign_all (List.concat results)
                                (repeat (-1)%Z (index t))) t)
                          star_file in
                      match starfile_write out (output_star args) with
                      | Ok _ =>
                          {| stdout := [];
                             submitted := micrographs_unique;
                             written := [(output_star args, out)];
                             raised := None |}
                      | Raise e => stopped [] micrographs_unique e
                      end
                    else stopped [] micrographs_unique
                           (apply_error (index t) (List.concat results))
                end
          end
      end
  end.
Proof.
  intros Hset. unfold script. rewrite load_star_file_cases.
  destruct (dict_get "particles"%string star_file) as [t|]; [|reflexivity].
  destruct (dict_get "rlnMicrographName"%string (columns t)) as [c|];
    [|reflexivity].
  cbv beta iota zeta. destruct (column_strings c) as [names|e];
    [|reflexivity].
  rewrite (get_unique_micrographs_any_order names (Hset names)).
  rewrite (surjective_pairing (get_unique_micrographs names)).
  unfold Pool. destruct (cpus args <? 1)%Z; [reflexivity|].
  destruct (pool _ _ args _) as [results|e]; [|reflexivity].
  rewrite apply_all_with_labels, repeat_length.
  destruct (in_table _ (List.concat results)); [|reflexivity].
  rewrite dict_set_set.
  destruct (starfile_write _ _); reflexivity.
Qed.

(** The script, branch by branch. *)
Lemma main_cases (args : Args) (star_file : document) (choices : list nat) :
  the_main args star_file choices =
  match dict_get "particles"%string star_file with
  | None => stopped [] [] KeyError
  | Some t =>
      match dict_get "rlnMicrographName"%string (columns t) with
      | None => stopped [no_micrograph_name] [] (SystemExit None)
      | Some c =>
          match column_strings c with
          | Raise e => stopped [] [] e
          | Ok names =>
              let particles := with_labels (repeat (-1)%Z (index t)) t in
              let micrographs_unique := fst (get_unique_micrographs names) in
              let mic_coord := snd (get_unique_micrographs names) in
              if (cpus args <? 1)%Z then stopped [] [] ValueError
              else
                match starmap (task particles mic_coord args)
                              micrographs_unique choices with
                | Raise e => stopped [] micrographs_unique e
                | Ok results =>
                    if in_table (index t) (List.concat results)
                    then
                      let out :=
                        dict_set "particles"%string
                          (with_labels
                             (assign_all (List.concat results)
                                (repeat (-1)%Z (index t))) t)
                          star_file in
                      match starfile_write out (output_star args) with
                      | Ok _ =>
                          {| stdout := [];
                             submitted := micrographs_unique;
                             written := [(output_star args, out)];
                             raised := None |}
                      | Raise e => stopped [] micrographs_unique e
                      end
                    else stopped [] micrographs_unique
                           (apply_error (index t) (List.concat results))
                end
          end
      end
  end.
Proof.
  unfold main. rewrite script_cases by (intros l; apply Permutation_refl).
  reflexivity.
Qed.

Lemma column_strings_StrCol (c : column) (names : list string) :
  c = StrCol names -> column_strings c = Ok names.
Proof. now intros ->. Qed.

(** A run that writes a file has gone through every step. *)
Lemma main_written (args : Args) (star_file : document) (choices : list nat)
    (path : string) (out : document) :
  written (the_main args star_file choices) = [(path, out)] ->
  exists t c names results,
    dict_get "particles"%string star_file = Some t /\
    dict_get "rlnMicrographName"%string (columns t) = Some c /\
    column_strings c = Ok names /\
    (1 <= cpus args)%Z /\
    Forall2 (fun mic r =>
               task (with_labels (repeat (-1)%Z (index t)) t)
                    (snd (get_unique_micrographs names)) args mic = Ok r)
            (fst (get_unique_micrographs names)) results /\
    in_table (index t) (List.concat results) = true /\
    path = output_star args /\
    out = dict_set "particles"%string
            (with_labels (assign_all (List.concat results)
                                     (repeat (-1)%Z (index t))) t)
            star_file /\
    starfile_write out path = Ok tt /\
    raised (the_main args star_file choices) = None.
Proof.
  rewrite main_cases.
  destruct (dict_get "particles"%string star_file) as [t|] eqn:Ht;
    [|discriminate].
  destruct (dict_get "rlnMicrographName"%string (columns t))
    as [c|] eqn:Hn; [|discriminate].
  destruct (column_strings c) as [names|e] eqn:Hc; [|discriminate].
  cbv zeta. destruct (Z.ltb_spec (cpus args) 1); [discriminate|].
  destruct (starmap _ _ choices) as [results|e] eqn:Hs; [|discriminate].
  destruct (in_table _ _) eqn:Hb; [|discriminate].
  destruct (starfile_write _ _) as [[]|e] eqn:Hw; [|discriminate].
  simpl. intros [= <- <-]. exists t, c, names, results.
  apply starmap_Ok_iff in Hs. repeat split; try assumption; try lia.
Qed.

(** The labels of the file that is written. *)
Lemma main_labels (args : Args) (star_file : document) (choices : list nat)
    (path : string) (out : document) (t : DataFrame) (names : list string) :
  written (the_main args star_file choices) = [(path, out)] ->
  dict_get "particles"%string star_file = Some t ->
  dict_get "rlnMicrographName"%string (columns t) = Some (StrCol names) ->
  exists labels,
    out = dict_set "particles"%string (with_labels labels t) star_file /\
    List.length labels = index t /\
    forall i,
      match nth_error names i with
      | Some mic =>
          exists seg_img o,
            segment args mic = Ok seg_img /\
            label_at prec emax t seg_img i = Ok o /\
            nth_error labels i =
            match o with
            | Some group => Some group
            | None => nth_error (repeat (-1)%Z (index t)) i
            end
      | None => nth_error labels i = nth_error (repeat (-1)%Z (index t)) i
      end.
Proof.
  intros Hw Ht Hn.
  destruct (main_written _ _ _ Hw)
    as [t' [c [names' [results
         [Ht' [Hn' [Hc [_ [Hres [Hb [_ [Hout _]]]]]]]]]]]].
  assert (t' = t) as -> by congruence.
  assert (c = StrCol names) as -> by congruence.
  assert (names' = names) as -> by (cbn in Hc; congruence).
  eexists. split; [exact Hout|]. split.
  - now rewrite assign_all_length, repeat_length.
  - intros i. apply final_labels with (args := args); [exact Hres|].
    rewrite repeat_length. now apply in_table_rows.
Qed.

Lemma nth_repeat_sentinel (n i : nat) :
  (i < n)%nat -> nth_error (repeat (-1)%Z n) i = Some (-1)%Z.
Proof.
  intros Hi. rewrite nth_error_repeat by assumption. reflexivity.
Qed.
End RunFacts.

(** * The statements of the specification *)

(** ** Indexing *)

(** A position inside [-len, len) reads a cell, counted from the end when
    it is negative; any other position raises. *)
Lemma py_index_inside {A : Type} (l : list A) (i : Z) :
  (- Z.of_nat (List.length l) <= i < Z.of_nat (List.length l))%Z ->
  exists a,
    nth_error l (Z.to_nat (if (i <? 0)%Z
                           then i + Z.of_nat (List.length l) else i)%Z)
      = Some a /\
    py_index l i = Ok a.
Proof.
  intros Hi. unfold py_index.
  set (n := Z.of_nat (List.length l)) in *.
  set (j := (if (i <? 0)%Z then (i + n)%Z else i)).
  assert (Hj : (0 <= j < n)%Z).
  { unfold j. destruct (Z.ltb_spec i 0); lia. }
  destruct (Z.leb_spec 0 j); [|lia]. destruct (Z.ltb_spec j n); [|lia]. simpl.
  destruct (nth_error l (Z.to_nat j)) as [a|] eqn:E.
  - now exists a.
  - exfalso. apply nth_error_None in E. unfold n in *. lia.
Qed.

Lemma py_index_outside {A : Type} (l : list A) (i : Z) :
  (i < - Z.of_nat (List.length l) \/ Z.of_nat (List.length l) <= i)%Z ->
  py_index l i = Raise IndexError.
Proof.
  intros Hi. unfold py_index.
  set (n := Z.of_nat (List.length l)) in *.
  destruct (Z.ltb_spec i 0).
  - destruct (Z.leb_spec 0 (i + n)); [lia|]. reflexivity.
  - destruct (Z.leb_spec 0 i); [|lia]. destruct (Z.ltb_spec i n); [lia|].
    reflexivity.
Qed.

(** ** Numbers *)

(** [int] of a float that is not below zero is its floor. *)
Lemma py_int_floor (f : spec_float) (z : Z) :
  PyNum.py_int f = Ok z -> PyNum.is_negative f = false ->
  PyNum.floor_of f = Some z.
Proof.
  destruct f as [s|s| |s m e]; simpl; try discriminate.
  - now intros [= <-].
  - intros [= <-]. destruct s; [discriminate|]. reflexivity.
Qed.

(** [int(np.floor(f))] is the floor of [f], and raises where [f] has
    none. *)
Lemma py_int_np_floor (f : spec_float) :
  PyNum.py_int (PyNum.np_floor f) =
  match PyNum.floor_of f with
  | Some z => Ok z
  | None => PyNum.py_int f
  end.
Proof.
  destruct f as [s|s| |s m e]; try reflexivity.
  cbn [PyNum.np_floor PyNum.floor_of].
  destruct (Z.leb_spec 0 e) as [He|He].
  - cbn [PyNum.py_int]. f_equal.
    unfold PyNum.trunc_finite, PyNum.floor_finite, PyNum.signed.
    destruct s; cbn [cond_Zopp]; [|reflexivity].
    rewrite !Z.shiftl_mul_pow2 by assumption. lia.
  - destruct (PyNum.floor_finite s m e) as [|p|p]; reflexivity.
Qed.

Section LabelClaims.
Variables prec emax : Z.
Variable image : Type.
Variable load_img : string -> result image.
Variable ice_grouper : image -> Z -> Z -> Z -> result (option ndarray).
Variable starfile_write : document -> string -> result unit.

Local Abbreviation task := (process_particle_icethickness prec emax load_img ice_grouper).
Local Abbreviation the_main :=
  (main prec emax load_img ice_grouper starfile_write).
Local Abbreviation segment := (segment_of load_img ice_grouper).

(** C1 (as the code has it).  In a run that writes its output, a
    particle whose floored pixel coordinate reads a finite value [v]
    from the segment image of its micrograph gets as label the integer
    part of the float product [v * 10000], rounded towards zero.  That
    is the floor of the product whenever the product is not below
    zero. *)
Theorem finite_cell_label_truncated (args : Args) (star_file : document)
    (choices : list nat) (path : string) (out : document) (t : DataFrame)
    (names : list string) (i : nat) (mic : string) (arr : ndarray)
    (v : spec_float) :
  written (the_main args star_file choices) = [(path, out)] ->
  dict_get "particles"%string star_file = Some t ->
  dict_get "rlnMicrographName"%string (columns t) = Some (StrCol names) ->
  nth_error names i = Some mic ->
  segment args mic = Ok (Some arr) ->
  cell_read t arr i = Ok v ->
  PyNum.isfinite v = true ->
  exists t' labels group,
    dict_get "particles"%string out = Some t' /\
    labels_of t' = Some labels /\
    nth_error labels i = Some group /\
    PyNum.py_int (PyNum.mul_int prec emax v 10000) = Ok group /\
    (PyNum.is_negative (PyNum.mul_int prec emax v 10000) = false ->
     PyNum.floor_of (PyNum.mul_int prec emax v 10000) = Some group).
Proof.
  intros Hw Ht Hn Hi Hs Hc Hf.
  destruct (@main_labels prec emax image load_img ice_grouper starfile_write args star_file choices path out t names Hw Ht Hn) as [labels [Hout [_ Hlab]]].
  specialize (Hlab i). rewrite Hi in Hlab.
  destruct Hlab as [seg_img [o [Hs' [Ho Hl]]]].
  assert (seg_img = Some arr) as -> by congruence.
  rewrite label_at_cell, Hc in Ho. simpl in Ho. rewrite Hf in Ho.
  destruct (PyNum.py_int (PyNum.mul_int prec emax v 10000)) as [g|e] eqn:Hg;
    [|discriminate].
  simpl in Ho. injection Ho as <-.
  exists (with_labels labels t), labels, g. subst out.
  rewrite dict_get_set_same, labels_of_with_labels.
  repeat split; try assumption; try reflexivity.
  intros Hneg. now apply py_int_floor.
Qed.

(** C2.  In a run that writes its output, a particle whose micrograph
    has no segment image, or whose floored pixel coordinate reads a
    value that is not finite, has the sentinel -1 as its label. *)
Theorem unavailable_or_nonfinite_keeps_sentinel (args : Args)
    (star_file : document) (choices : list nat) (path : string)
    (out : document) (t : DataFrame) (names : list string) (i : nat)
    (mic : string) :
  written (the_main args star_file choices) = [(path, out)] ->
  dict_get "particles"%string star_file = Some t ->
  dict_get "rlnMicrographName"%string (columns t) = Some (StrCol names) ->
  nth_error names i = Some mic ->
  (i < index t)%nat ->
  (segment args mic = Ok None \/
   exists arr v, segment args mic = Ok (Some arr) /\
                 cell_read t arr i = Ok v /\
                 PyNum.isfinite v = false) ->
  exists t' labels,
    dict_get "particles"%string out = Some t' /\
    labels_of t' = Some labels /\
    nth_error labels i = Some (-1)%Z.
Proof.
  intros Hw Ht Hn Hi Hlt Hcase.
  destruct (@main_labels prec emax image load_img ice_grouper starfile_write args star_file choices path out t names Hw Ht Hn) as [labels [Hout [_ Hlab]]].
  specialize (Hlab i). rewrite Hi in Hlab.
  destruct Hlab as [seg_img [o [Hs' [Ho Hl]]]].
  exists (with_labels labels t), labels. subst out.
  rewrite dict_get_set_same, labels_of_with_labels.
  repeat split; try reflexivity.
  assert (o = None) as ->.
  { destruct Hcase as [Hs | [arr [v [Hs [Hc Hf]]]]].
    - assert (seg_img = None) as -> by congruence.
      unfold label_at in Ho.
      destruct (pixel t "rlnCoordinateX" i); simpl in Ho; [|discriminate].
      destruct (pixel t "rlnCoordinateY" i); simpl in Ho; [|discriminate].
      congruence.
    - assert (seg_img = Some arr) as -> by congruence.
      rewrite label_at_cell, Hc in Ho. simpl in Ho. rewrite Hf in Ho.
      congruence. }
  rewrite Hl. now apply nth_repeat_sentinel.
Qed.

(** C3.  When the particle table has no [rlnMicrographName] column the
    run is the same whatever the images are: it prints the message and
    ends on [exit()], with no micrograph handed to a worker and no file
    written. *)
Theorem missing_micrograph_column_stops_early (args : Args)
    (star_file : document) (choices : list nat) (t : DataFrame) :
  dict_get "particles"%string star_file = Some t ->
  dict_get "rlnMicrographName"%string (columns t) = None ->
  the_main args star_file choices =
  {| stdout := [no_micrograph_name];
     submitted := [];
     written := [];
     raised := Some (SystemExit None) |}.
Proof.
  intros Ht Hn. rewrite main_cases, Ht, Hn. reflexivity.
Qed.
End LabelClaims.

Section RunClaims.
Variables prec emax : Z.
Variable image : Type.
Variable load_img : string -> result image.
Variable ice_grouper : image -> Z -> Z -> Z -> result (option ndarray).
Variable starfile_write : document -> string -> result unit.

Local Abbreviation task := (process_particle_icethickness prec emax load_img ice_grouper).
Local Abbreviation the_main :=
  (main prec emax load_img ice_grouper starfile_write).
Local Abbreviation segment := (segment_of load_img ice_grouper).

(** A run either stops on an exception without writing, or writes one
    file. *)
Lemma main_stopped_or_written (args : Args) (star_file : document)
    (choices : list nat) :
  (exists out sub e, the_main args star_file choices = stopped out sub e) \/
  (exists out, written (the_main args star_file choices)
               = [(output_star args, out)] /\
               raised (the_main args star_file choices) = None /\
               stdout (the_main args star_file choices) = []).
Proof.
  rewrite main_cases.
  destruct (dict_get "particles"%string star_file) as [t|];
    [|left; do 3 eexists; reflexivity].
  destruct (dict_get "rlnMicrographName"%string (columns t)) as [c|];
    [|left; do 3 eexists; reflexivity].
  destruct (column_strings c) as [names|e];
    [|left; do 3 eexists; reflexivity].
  cbv zeta. destruct (cpus args <? 1)%Z; [left; do 3 eexists; reflexivity|].
  destruct (starmap _ _ choices) as [results|e];
    [|left; do 3 eexists; reflexivity].
  destruct (in_table _ _); [|left; do 3 eexists; reflexivity].
  destruct (starfile_write _ _); [|left; do 3 eexists; reflexivity].
  right. eexists. repeat split.
Qed.

(** On a well-formed table with a column of identifiers, a pool with a
    worker, tasks that all return with labels the column can hold and a
    file system that takes the file, the run completes. *)
Lemma main_completes (args : Args) (star_file : document)
    (choices : list nat) (t : DataFrame) (names : list string) :
  dict_get "particles"%string star_file = Some t ->
  dict_get "rlnMicrographName"%string (columns t) = Some (StrCol names) ->
  well_formed t ->
  (1 <= cpus args)%Z ->
  (forall i mic, nth_error names i = Some mic ->
     exists seg_img o,
       segment args mic = Ok seg_img /\
       label_at prec emax t seg_img i = Ok o /\
       forall group, o = Some group -> int64 group = true) ->
  (forall out, starfile_write out (output_star args) = Ok tt) ->
  exists out,
    the_main args star_file choices =
    {| stdout := [];
       submitted := fst (get_unique_micrographs names);
       written := [(output_star args, out)];
       raised := None |}.
Proof.
  intros Ht Hn Hwf Hcpus Hall Hwrite.
  rewrite main_cases, Ht, Hn. cbn [column_strings]. cbv zeta.
  destruct (Z.ltb_spec (cpus args) 1); [lia|].
  set (particles := with_labels (repeat (-1)%Z (index t)) t).
  set (mic_coord := snd (get_unique_micrographs names)).
  destruct (@all_return _ _ (task particles mic_coord args)
              (fst (get_unique_micrographs names))) as [results Hres].
  { intros mic Hmic. apply -> unique_In in Hmic.
    apply (@task_progress prec emax image load_img ice_grouper
             t names args mic Hmic).
    - intros seg_img Hs i Hi.
      destruct (Hall _ _ Hi) as [seg' [o [Hs' [Ho _]]]].
      assert (seg' = seg_img) as -> by congruence. now rewrite Ho.
    - destruct (In_nth_error _ _ Hmic) as [i Hi].
      destruct (Hall _ _ Hi) as [seg' [o [Hs' _]]]. now rewrite Hs'. }
  rewrite (@starmap_returns _ _ _ _ results choices Hres).
  assert (Hb : in_table (index t) (List.concat results) = true).
  { unfold in_table. apply forallb_forall. intros [k v] Hkv.
    unfold item_fits. cbn [fst snd]. apply andb_true_intro. split.
    - apply Nat.ltb_lt.
      pose proof (@items_in_range prec emax image load_img ice_grouper
                    t names args results Hres k v Hkv) as Hk.
      apply dict_get_In in Hn. unfold well_formed in Hwf.
      rewrite Forall_forall in Hwf. specialize (Hwf _ Hn). simpl in Hwf.
      lia.
    - destruct (@item_origin prec emax image load_img ice_grouper
                  t names args results Hres k v Hkv)
        as [mic [seg_img [Hk [Hs Hl]]]].
      destruct (Hall _ _ Hk) as [seg' [o [Hs' [Ho Hfit]]]].
      apply Hfit. congruence. }
  rewrite Hb, Hwrite. eexists. reflexivity.
Qed.

(** C4 (as the code has it).  When the [rlnMicrographName] column is
    missing the script prints the message and stops at once, writing
    nothing, with exit status 0: [exit()] is called without an
    argument.  When the column is there, in a well-formed table of a
    file of several blocks, the pool has a worker, every task returns
    with labels that the [int64] column can hold and the file system
    takes the output file, the script ends normally with status 0 after
    writing one file, at the output path. *)
Theorem exit_behaviour (args : Args) (star_file : document)
    (choices : list nat) (t : DataFrame) :
  dict_get "particles"%string star_file = Some t ->
  let r := the_main args star_file choices in
  (dict_get "rlnMicrographName"%string (columns t) = None ->
   stdout r = [no_micrograph_name] /\ submitted r = [] /\
   written r = [] /\ raised r = Some (SystemExit None) /\
   exit_status r = 0%Z) /\
  (forall names,
     dict_get "rlnMicrographName"%string (columns t) = Some (StrCol names) ->
     several_blocks star_file ->
     well_formed t ->
     (1 <= cpus args)%Z ->
     (forall i mic, nth_error names i = Some mic ->
        exists seg_img o,
          segment args mic = Ok seg_img /\
          label_at prec emax t seg_img i = Ok o /\
          forall group, o = Some group -> int64 group = true) ->
     (forall out, starfile_write out (output_star args) = Ok tt) ->
     stdout r = [] /\ raised r = None /\ exit_status r = 0%Z /\
     exists out, written r = [(output_star args, out)]).
Proof.
  intros Ht r. split.
  - intros Hn. unfold r. rewrite main_cases, Ht, Hn. repeat split.
  - intros names Hn _ Hwf Hcpus Hall Hwrite.
    destruct (@main_completes args star_file choices t names
                Ht Hn Hwf Hcpus Hall Hwrite) as [out Hr].
    unfold r. rewrite Hr. repeat split. now exists out.
Qed.

(** C5.  The particle table of the output has the rows of the input
    table: the same number of rows, every column but [ibIceGroup] cell
    for cell as it was and in its place, and one label per row.  The
    other blocks of the file are untouched. *)
Theorem output_table_frame (args : Args) (star_file : document)
    (choices : list nat) (path : string) (out : document) (t : DataFrame) :
  written (the_main args star_file choices) = [(path, out)] ->
  dict_get "particles"%string star_file = Some t ->
  exists t',
    dict_get "particles"%string out = Some t' /\
    index t' = index t /\
    (forall name, name <> "ibIceGroup"%string ->
       dict_get name (columns t') = dict_get name (columns t)) /\
    dict_keys (columns t') =
      (if dict_mem "ibIceGroup"%string (columns t)
       then dict_keys (columns t)
       else dict_keys (columns t) ++ ["ibIceGroup"%string]) /\
    (exists labels, labels_of t' = Some labels /\
                    List.length labels = index t) /\
    dict_keys out = dict_keys star_file /\
    (forall block, block <> "particles"%string ->
       dict_get block out = dict_get block star_file).
Proof.
  intros Hw Ht.
  destruct (@main_written prec emax image load_img ice_grouper starfile_write
              args star_file choices path out Hw)
    as [t0 [c [names [results [Ht0 [Hn [_ [_ [_ [_ [_ [Hout _]]]]]]]]]]]].
  assert (t0 = t) as -> by congruence.
  eexists. subst out. rewrite dict_get_set_same.
  split; [reflexivity|]. split; [reflexivity|]. split.
  - intros name Hne. now apply with_labels_get.
  - split; [apply dict_keys_set|]. split.
    + eexists. rewrite labels_of_with_labels. split; [reflexivity|].
      now rewrite assign_all_length, repeat_length.
    + split.
      * rewrite dict_keys_set. unfold dict_mem. now rewrite Ht.
      * intros block Hne. now apply dict_get_set_other.
Qed.

End RunClaims.

(** ** Scheduling *)

Section WorkerPoolFacts.
Context {T R W : Type}.
Variable f : T -> W -> result R * W.
Hypothesis Hstateless : forall t w w', fst (f t w) = fst (f t w').

Lemma run_chunk_stateless (chunk : list T) (w w' : W) :
  fst (run_chunk f chunk w) = fst (run_chunk f chunk w').
Proof.
  revert w w'. induction chunk as [|t chunk IH]; intros w w';
    cbn [run_chunk]; [reflexivity|].
  pose proof (Hstateless t w w') as Hf.
  destruct (f t w) as [[r|e] w1], (f t w') as [[r'|e'] w1'];
    cbn [fst] in *; try discriminate; [|now injection Hf as <-].
  injection Hf as <-. specialize (IH w1 w1').
  destruct (run_chunk f chunk w1) as [rs w2],
           (run_chunk f chunk w1') as [rs' w2'].
  cbn [fst] in *. now subst rs'.
Qed.

Lemma dispatch_stateless (processes : nat) (w0 : W) (chunks : list (list T))
    (assign assign' : list nat) (ws ws' : list W) :
  dispatch f processes w0 chunks assign ws =
  dispatch f processes w0 chunks assign' ws'.
Proof.
  revert assign assign' ws ws'.
  induction chunks as [|c chunks IH]; intros assign assign' ws ws';
    cbn [dispatch]; [reflexivity|].
  cbv zeta.
  pose proof (run_chunk_stateless c
                (nth (Nat.modulo (hd 0%nat assign) processes) ws w0)
                (nth (Nat.modulo (hd 0%nat assign') processes) ws' w0))
    as Hc.
  destruct (run_chunk f c (nth _ ws w0)) as [res w1],
           (run_chunk f c (nth _ ws' w0)) as [res' w1'].
  cbn [fst] in Hc. subst res'. f_equal. apply IH.
Qed.

(** With tasks whose results do not depend on the state of the worker,
    the pool returns the same results, or raises, under every
    scheduling. *)
Lemma starmap_workers_schedule_free (processes : nat) (w0 : W)
    (tasks : list T) (assign1 choices1 assign2 choices2 : list nat) :
  match starmap_workers f processes w0 tasks assign1 choices1,
        starmap_workers f processes w0 tasks assign2 choices2 with
  | Ok rs1, Ok rs2 => rs1 = rs2
  | Raise _, Raise _ => True
  | _, _ => False
  end.
Proof.
  unfold starmap_workers. cbv zeta.
  rewrite (dispatch_stateless processes w0 _ assign1 assign2
             (repeat w0 processes) (repeat w0 processes)).
  set (outcomes := dispatch f processes w0 _ assign2 _).
  pose proof (@starmap_schedule_free _ _ (fun o : result (list R) => o)
                outcomes choices1 choices2) as Hfree.
  destruct (starmap _ outcomes choices1) as [rss1|e1],
           (starmap _ outcomes choices2) as [rss2|e2];
    cbn [bind]; try tauto.
  now subst rss2.
Qed.
End WorkerPoolFacts.

Section ScheduleClaims.
Variables prec emax : Z.
Variables image W : Type.
Variable load_img : string -> W -> result image * W.
Variable ice_grouper :
  image -> Z -> Z -> Z -> W -> result (option ndarray) * W.
Variable starfile_write : document -> string -> result unit.

Lemma process_in_worker_stateless (particles : DataFrame)
    (mic_coord : dict string (list nat)) (args : Args) :
  (forall mic w w', fst (load_img mic w) = fst (load_img mic w')) ->
  (forall img x y n w w',
     fst (ice_grouper img x y n w) = fst (ice_grouper img x y n w')) ->
  forall mic w w',
    fst (process_in_worker prec emax load_img ice_grouper
           particles mic_coord args mic w) =
    fst (process_in_worker prec emax load_img ice_grouper
           particles mic_coord args mic w').
Proof.
  intros Hload Hseg mic w w'. unfold process_in_worker.
  pose proof (Hload mic w w') as Hl.
  destruct (load_img mic w) as [[img|e] w1],
           (load_img mic w') as [[img'|e'] w1'];
    cbn [fst] in *; try discriminate; [|now injection Hl as <-].
  injection Hl as <-.
  pose proof (Hseg img (x_patches args) (y_patches args)
                (num_of_segments args) w1 w1') as Hs.
  destruct (ice_grouper img _ _ _ w1) as [[seg|e] w2],
           (ice_grouper img _ _ _ w1') as [[seg'|e'] w2'];
    cbn [fst] in *; try discriminate; [|now injection Hs as <-].
  now injection Hs as <-.
Qed.

(** C6 (as the code has it).  When the imported functions return the
    same result for the same arguments whatever the state of the process
    that runs them, two runs on the same input with the same
    configuration write the same file, labels included, whatever the
    order in which the set of identifiers iterates, whichever worker
    takes which chunk of tasks and in whichever order the chunks come
    in; they print the same and end both normally or both on an
    exception. *)
Theorem labels_schedule_independent (w0 : W) (args : Args)
    (star_file : document)
    (set_list1 set_list2 : list string -> list string)
    (assign1 choices1 assign2 choices2 : list nat) :
  (forall mic w w', fst (load_img mic w) = fst (load_img mic w')) ->
  (forall img x y n w w',
     fst (ice_grouper img x y n w) = fst (ice_grouper img x y n w')) ->
  (forall l, Permutation (py_set l) (set_list1 l)) ->
  (forall l, Permutation (py_set l) (set_list2 l)) ->
  let r1 := main_workers prec emax load_img ice_grouper starfile_write
              w0 set_list1 assign1 choices1 args star_file in
  let r2 := main_workers prec emax load_img ice_grouper starfile_write
              w0 set_list2 assign2 choices2 args star_file in
  written r1 = written r2 /\
  stdout r1 = stdout r2 /\
  submitted r1 = submitted r2 /\
  (raised r1 = None <-> raised r2 = None).
Proof.
  intros Hload Hseg Hset1 Hset2. cbv zeta. unfold main_workers.
  rewrite !script_cases by assumption.
  destruct (dict_get "particles"%string star_file) as [t|];
    [|repeat split; auto].
  destruct (dict_get "rlnMicrographName"%string (columns t)) as [c|];
    [|repeat split; auto].
  destruct (column_strings c) as [names|e]; [|repeat split; auto].
  cbv zeta. destruct (cpus args <? 1)%Z; [repeat split; auto|].
  set (f := process_in_worker prec emax load_img ice_grouper _ _ args).
  pose proof (@starmap_workers_schedule_free _ _ _ f
                (process_in_worker_stateless _ _ args Hload Hseg)
                (Z.to_nat (cpus args)) w0
                (fst (get_unique_micrographs names))
                assign1 choices1 assign2 choices2) as Hfree.
  destruct (starmap_workers f _ w0 _ assign1 choices1) as [rs1|e1];
    destruct (starmap_workers f _ w0 _ assign2 choices2) as [rs2|e2];
    try tauto.
  - subst rs2. repeat split; auto.
  - cbn [stopped written stdout submitted raised].
    repeat split; auto; discriminate.
Qed.
End ScheduleClaims.

(** C7.  For every sequence of identifiers the grouper returns the
    distinct identifiers in strictly ascending order, and a dictionary
    whose keys are these identifiers, in this order, each with the list of
    exactly the rows that carry it, in ascending order.  The order in
    which the set hands out its elements makes no difference. *)
Theorem get_unique_micrographs_spec (micrographs_used : list string) :
  let micrographs_unique := fst (get_unique_micrographs micrographs_used) in
  let mic_coord := snd (get_unique_micrographs micrographs_used) in
  StronglySorted str_lt micrographs_unique /\
  (forall mic, In mic micrographs_unique <-> In mic micrographs_used) /\
  dict_keys mic_coord = micrographs_unique /\
  (forall mic, In mic micrographs_unique ->
     exists l, dict_get mic mic_coord = Some l /\
               StronglySorted lt l /\
               forall i, In i l <-> nth_error micrographs_used i = Some mic) /\
  (forall elems, Permutation (py_set micrographs_used) elems ->
     get_unique_micrographs_of elems micrographs_used =
     get_unique_micrographs micrographs_used).
Proof.
  cbv zeta. split; [apply unique_ascending|].
  split; [intros mic; apply unique_In|].
  split; [apply mic_coord_keys|]. split.
  - intros mic Hin. apply -> unique_In in Hin.
    exists (indices_of mic micrographs_used). rewrite mic_coord_get.
    destruct (in_dec string_dec mic micrographs_used) as [_|Hn]; [|tauto].
    split; [reflexivity|]. split; [apply indices_of_ascending|].
    intros i. apply indices_of_spec.
  - intros elems. apply get_unique_micrographs_any_order.
Qed.

(** C8.  The index lists partition the rows: a row is once in the list of
    its own identifier and in the list of no other key, and no key comes
    twice. *)
Theorem mic_coord_partitions_rows (micrographs_used : list string) (i : nat)
    (mic : string) :
  nth_error micrographs_used i = Some mic ->
  let mic_coord := snd (get_unique_micrographs micrographs_used) in
  (exists l, dict_get mic mic_coord = Some l /\
             count_occ Nat.eq_dec l i = 1%nat) /\
  (forall mic' l, In (mic', l) mic_coord -> In i l -> mic' = mic) /\
  NoDup (dict_keys mic_coord).
Proof.
  intros Hi. cbv zeta.
  assert (Hnd : NoDup (dict_keys (snd (get_unique_micrographs micrographs_used)))).
  { rewrite mic_coord_keys. apply ascending_NoDup, unique_ascending. }
  split; [|split; [|exact Hnd]].
  - exists (indices_of mic micrographs_used). rewrite mic_coord_get.
    destruct (in_dec string_dec mic micrographs_used) as [_|Hn].
    + split; [reflexivity|].
      apply NoDup_count_occ'.
      * apply ascending_nat_NoDup, indices_of_ascending.
      * now apply indices_of_spec.
    + exfalso. apply Hn. eapply nth_error_In; eassumption.
  - intros mic' l Hin Hil.
    apply (dict_In_get _ _ _ Hnd) in Hin. rewrite mic_coord_get in Hin.
    destruct (in_dec string_dec mic' micrographs_used); [|discriminate].
    injection Hin as <-. apply indices_of_spec in Hil. congruence.
Qed.

Section ReadClaims.
Variables prec emax : Z.
Variable image : Type.
Variable load_img : string -> result image.
Variable ice_grouper : image -> Z -> Z -> Z -> result (option ndarray).
Variable starfile_write : document -> string -> result unit.

Local Abbreviation task := (process_particle_icethickness prec emax load_img ice_grouper).
Local Abbreviation the_main :=
  (main prec emax load_img ice_grouper starfile_write).
Local Abbreviation segment := (segment_of load_img ice_grouper).

(** The row cut out of the segment image, then the cell cut out of the
    row. *)
Lemma cell_read_steps (t : DataFrame) (arr : ndarray) (i : nat) (x1 y1 : Z) :
  pixel t "rlnCoordinateX" i = Ok x1 ->
  pixel t "rlnCoordinateY" i = Ok y1 ->
  cell_read t arr i = (row <- py_index arr y1 ;; py_index row x1).
Proof. intros Hx Hy. unfold cell_read. now rewrite Hx, Hy. Qed.

(** C9 (as the code has it).  The segment image is read at the floored
    [(y, x)] without a bounds check.  A coordinate at or beyond the
    extent, or below minus the extent, raises [IndexError]; an
    exception on the read ends the run without output.  A negative
    coordinate down to minus the extent reads the cell that many places
    from the far edge, and the particle is labelled from it like any
    other. *)
Theorem unchecked_segment_index (t : DataFrame) (arr : ndarray) (i : nat)
    (x1 y1 : Z) :
  pixel t "rlnCoordinateX" i = Ok x1 ->
  pixel t "rlnCoordinateY" i = Ok y1 ->
  let rows := Z.of_nat (List.length arr) in
  ((y1 < - rows \/ rows <= y1)%Z ->
   cell_read t arr i = Raise IndexError) /\
  ((- rows <= y1 < rows)%Z ->
   exists row,
     nth_error arr (Z.to_nat (if (y1 <? 0)%Z then y1 + rows else y1)%Z)
       = Some row /\
     let cols := Z.of_nat (List.length row) in
     ((x1 < - cols \/ cols <= x1)%Z ->
      cell_read t arr i = Raise IndexError) /\
     ((- cols <= x1 < cols)%Z ->
      exists v,
        nth_error row (Z.to_nat (if (x1 <? 0)%Z then x1 + cols else x1)%Z)
          = Some v /\
        cell_read t arr i = Ok v /\
        label_at prec emax t (Some arr) i =
        (if PyNum.isfinite v
         then group <- PyNum.py_int (PyNum.mul_int prec emax v 10000) ;;
              Ok (Some group)
         else Ok None))) /\
  (forall args star_file choices names mic,
     dict_get "particles"%string star_file = Some t ->
     dict_get "rlnMicrographName"%string (columns t) = Some (StrCol names) ->
     nth_error names i = Some mic ->
     segment args mic = Ok (Some arr) ->
     is_ok (cell_read t arr i) = false ->
     written (the_main args star_file choices) = [] /\
     raised (the_main args star_file choices) <> None).
Proof.
  intros Hx Hy rows. rewrite (@cell_read_steps t arr i x1 y1 Hx Hy).
  split; [|split].
  - intros Hout. now rewrite py_index_outside.
  - intros Hin. destruct (@py_index_inside _ arr y1 Hin) as [row [Hrow Hr]].
    exists row. split; [exact Hrow|]. rewrite Hr. cbv zeta. simpl. split.
    + intros Hout. now apply py_index_outside.
    + intros Hinx. destruct (@py_index_inside _ row x1 Hinx) as [v [Hv Hc]].
      exists v. split; [exact Hv|]. split; [exact Hc|].
      rewrite label_at_cell, (@cell_read_steps t arr i x1 y1 Hx Hy), Hr. simpl.
      now rewrite Hc.
  - intros args star_file choices names mic Ht Hn Hi Hs Hbad.
    destruct (@main_stopped_or_written prec emax image load_img ice_grouper starfile_write
                args star_file choices)
      as [[out [sub [e He]]] | [out [Hw _]]].
    + rewrite He. split; [reflexivity | discriminate].
    + exfalso.
      destruct (@main_labels prec emax image load_img ice_grouper starfile_write
                  args star_file choices _ _ t names Hw Ht Hn)
        as [labels [_ [_ Hlab]]].
      specialize (Hlab i). rewrite Hi in Hlab.
      destruct Hlab as [seg_img [o [Hs' [Ho _]]]].
      assert (seg_img = Some arr) as -> by congruence.
      rewrite label_at_cell, (@cell_read_steps t arr i x1 y1 Hx Hy) in Ho.
      destruct (row <- py_index arr y1;; py_index row x1);
        [discriminate Hbad | discriminate Ho].
Qed.

(** Labels the input file came with do not reach the run. *)
Lemma main_forgets_labels (args : Args) (star_file : document)
    (choices : list nat) (t : DataFrame) (labels_in : list Z) :
  dict_get "particles"%string star_file = Some t ->
  the_main args
    (dict_set "particles"%string (with_labels labels_in t) star_file)
    choices =
  the_main args star_file choices.
Proof.
  intros Ht. unfold main, script. rewrite !load_star_file_cases.
  rewrite dict_get_set_same, Ht. cbv zeta.
  rewrite with_labels_get by discriminate.
  cbn [index with_labels]. rewrite with_labels_twice, dict_set_set.
  reflexivity.
Qed.

(** C10.  Loading sets the [ibIceGroup] column of every row to -1,
    whatever the file held there.  On a table with the identifier column
    the loader returns, and the table it returns has the rows and the
    other columns of the input and -1 as the label of every row; the run
    on a file is the run on the same file with any other labels; in
    every file that is written, a row for which the task decided on no
    label has -1; and such a file is written when the table is
    well formed, the pool has a worker, every task returns with labels
    the column can hold and the file system takes the file. *)
Theorem load_resets_labels (star_file : document) (t : DataFrame)
    (c : column) :
  dict_get "particles"%string star_file = Some t ->
  dict_get "rlnMicrographName"%string (columns t) = Some c ->
  (exists df particles,
     load_star_file star_file = ([], Ok (df, particles, c)) /\
     labels_of particles = Some (repeat (-1)%Z (index t)) /\
     index particles = index t /\
     (forall name, name <> "ibIceGroup"%string ->
        dict_get name (columns particles) = dict_get name (columns t)) /\
     dict_get "particles"%string df = Some particles) /\
  (forall args choices labels_in,
     the_main args
       (dict_set "particles"%string (with_labels labels_in t) star_file)
       choices =
     the_main args star_file choices) /\
  (forall args choices path out names,
     written (the_main args star_file choices) = [(path, out)] ->
     c = StrCol names ->
     exists t' labels,
       dict_get "particles"%string out = Some t' /\
       labels_of t' = Some labels /\
       List.length labels = index t /\
       forall i, (i < index t)%nat ->
         (forall mic seg_img,
            nth_error names i = Some mic ->
            segment args mic = Ok seg_img ->
            label_at prec emax t seg_img i = Ok None) ->
         nth_error labels i = Some (-1)%Z) /\
  (forall args choices names,
     c = StrCol names ->
     several_blocks star_file ->
     well_formed t ->
     (1 <= cpus args)%Z ->
     (forall i mic, nth_error names i = Some mic ->
        exists seg_img o,
          segment args mic = Ok seg_img /\
          label_at prec emax t seg_img i = Ok o /\
          forall group, o = Some group -> int64 group = true) ->
     (forall out, starfile_write out (output_star args) = Ok tt) ->
     exists out,
       written (the_main args star_file choices)
         = [(output_star args, out)]).
Proof.
  intros Ht Hn.
  assert (Hlabels : forall args choices path out names,
     written (the_main args star_file choices) = [(path, out)] ->
     c = StrCol names ->
     exists t' labels,
       dict_get "particles"%string out = Some t' /\
       labels_of t' = Some labels /\
       List.length labels = index t /\
       forall i, (i < index t)%nat ->
         (forall mic seg_img,
            nth_error names i = Some mic ->
            segment args mic = Ok seg_img ->
            label_at prec emax t seg_img i = Ok None) ->
         nth_error labels i = Some (-1)%Z).
  { intros args choices path out names Hw ->.
    destruct (@main_labels prec emax image load_img ice_grouper starfile_write
                args star_file choices _ _ t names Hw Ht Hn)
      as [labels [Hout [Hlen Hlab]]].
    exists (with_labels labels t), labels. subst out.
    rewrite dict_get_set_same, labels_of_with_labels.
    repeat split; try assumption.
    intros i Hi Hnone. specialize (Hlab i).
    destruct (nth_error names i) as [mic|].
    + destruct Hlab as [seg_img [o [Hs [Ho Hl]]]].
      rewrite (Hnone _ _ eq_refl Hs) in Ho. injection Ho as <-.
      rewrite Hl. now apply nth_repeat_sentinel.
    + rewrite Hlab. now apply nth_repeat_sentinel. }
  split; [|split; [|split]].
  - exists (dict_set "particles"%string
              (with_labels (repeat (-1)%Z (index t)) t) star_file),
           (with_labels (repeat (-1)%Z (index t)) t).
    rewrite load_star_file_cases, Ht. cbv zeta. rewrite Hn.
    split; [reflexivity|]. split; [apply labels_of_with_labels|].
    split; [reflexivity|]. split.
    + intros name Hne. now apply with_labels_get.
    + apply dict_get_set_same.
  - intros args choices labels_in. now apply main_forgets_labels.
  - exact Hlabels.
  - intros args choices names -> _ Hwf Hcpus Hall Hwrite.
    destruct (@main_completes prec emax image load_img ice_grouper
                starfile_write args star_file choices t names
                Ht Hn Hwf Hcpus Hall Hwrite) as [out Hr].
    exists out. now rewrite Hr.
Qed.
End ReadClaims.

(** ** The theorems on the sample run *)

Local Abbreviation sample_main :=
  (main 53 1024 Sample.load_img Sample.ice_grouper Sample.starfile_write).

(** C1 on row 2 of the sample: the cell is 0.75 and the label 7500. *)
Lemma finite_cell_label_truncated_witness :
  exists t' labels group,
    dict_get "particles"%string sample_output = Some t' /\
    labels_of t' = Some labels /\
    nth_error labels 2 = Some group /\
    PyNum.py_int (PyNum.mul_int 53 1024 (Sample.dyadic 3 (-2)) 10000)
      = Ok group /\
    (PyNum.is_negative (PyNum.mul_int 53 1024 (Sample.dyadic 3 (-2)) 10000)
       = false ->
     PyNum.floor_of (PyNum.mul_int 53 1024 (Sample.dyadic 3 (-2)) 10000)
       = Some group).
Proof.
  apply (@finite_cell_label_truncated 53 1024 string
           Sample.load_img Sample.ice_grouper Sample.starfile_write
           Sample.args Sample.star []
           "extract_particles_icegroups.star"%string sample_output
           Sample.table Sample.names 2 "b.mrc"%string Sample.seg
           (Sample.dyadic 3 (-2)));
    vm_compute; reflexivity.
Defined.

(** C1 as stated fails on row 0 of the sample: the cell read is the
    finite value -2^-14, the product is -0.6103515625, its floor is -1 and
    the label written is 0. *)
Lemma finite_cell_label_not_floor :
  written (Sample.run_of Sample.star [])
    = [("extract_particles_icegroups.star"%string, sample_output)] /\
  dict_get "particles"%string Sample.star = Some Sample.table /\
  nth_error Sample.names 0 = Some "b.mrc"%string /\
  segment_of Sample.load_img Sample.ice_grouper Sample.args "b.mrc"
    = Ok (Some Sample.seg) /\
  cell_read Sample.table Sample.seg 0 = Ok (Sample.dyadic (-1) (-14)) /\
  PyNum.isfinite (Sample.dyadic (-1) (-14)) = true /\
  PyNum.floor_of (PyNum.mul_int 53 1024 (Sample.dyadic (-1) (-14)) 10000)
    = Some (-1)%Z /\
  (exists t' labels,
     dict_get "particles"%string sample_output = Some t' /\
     labels_of t' = Some labels /\
     nth_error labels 0 = Some 0%Z) /\
  (0 <> -1)%Z.
Proof.
  repeat split; try (vm_compute; reflexivity); try discriminate.
  do 2 eexists. repeat split; vm_compute; reflexivity.
Qed.

(** C2 on the sample: row 1 has no segment image, row 6 reads a NaN. *)
Lemma unavailable_or_nonfinite_keeps_sentinel_witness :
  (exists t' labels,
     dict_get "particles"%string sample_output = Some t' /\
     labels_of t' = Some labels /\ nth_error labels 1 = Some (-1)%Z) /\
  (exists t' labels,
     dict_get "particles"%string sample_output = Some t' /\
     labels_of t' = Some labels /\ nth_error labels 6 = Some (-1)%Z).
Proof.
  split.
  - apply (@unavailable_or_nonfinite_keeps_sentinel 53 1024 string
             Sample.load_img Sample.ice_grouper Sample.starfile_write
             Sample.args Sample.star []
             "extract_particles_icegroups.star"%string sample_output
             Sample.table Sample.names 1 "a.mrc"%string);
      [ vm_compute; reflexivity | reflexivity | reflexivity | reflexivity
      | simpl; lia
      | left; vm_compute; reflexivity ].
  - apply (@unavailable_or_nonfinite_keeps_sentinel 53 1024 string
             Sample.load_img Sample.ice_grouper Sample.starfile_write
             Sample.args Sample.star []
             "extract_particles_icegroups.star"%string sample_output
             Sample.table Sample.names 6 "b.mrc"%string);
      [ vm_compute; reflexivity | reflexivity | reflexivity | reflexivity
      | simpl; lia
      | right; exists Sample.seg, S754_nan;
        repeat split; vm_compute; reflexivity ].
Defined.

(** C3 on the sample file without identifiers. *)
Lemma missing_micrograph_column_stops_early_witness :
  sample_main Sample.args Sample.star_unnamed [] =
  {| stdout := [no_micrograph_name];
     submitted := [];
     written := [];
     raised := Some (SystemExit None) |}.
Proof.
  apply (@missing_micrograph_column_stops_early 53 1024 string
           Sample.load_img Sample.ice_grouper Sample.starfile_write
           Sample.args Sample.star_unnamed [] Sample.table_unnamed);
    reflexivity.
Defined.

Lemma sample_well_formed : well_formed Sample.table.
Proof. unfold well_formed. simpl. repeat constructor. Qed.

Lemma sample_tasks_return (i : nat) (mic : string) :
  nth_error Sample.names i = Some mic ->
  exists seg_img o,
    segment_of Sample.load_img Sample.ice_grouper Sample.args mic
      = Ok seg_img /\
    label_at 53 1024 Sample.table seg_img i = Ok o /\
    forall group, o = Some group -> int64 group = true.
Proof.
  intros Hi.
  do 7 (destruct i as [|i];
        [injection Hi as <-; do 2 eexists;
         split; [vm_compute; reflexivity|];
         split; [vm_compute; reflexivity|];
         intros group [= <-] || (intros group Hg; discriminate Hg);
         reflexivity|]).
  destruct i; discriminate.
Qed.

Lemma sample_several_blocks : several_blocks Sample.star.
Proof. unfold several_blocks. simpl. lia. Qed.

Lemma sample_writable (out : document) :
  Sample.starfile_write out (output_star Sample.args) = Ok tt.
Proof. reflexivity. Qed.

(** C4 on the sample: without the column the status is 0 and nothing is
    written; with it the run writes its file and ends with status 0. *)
Lemma exit_behaviour_witness :
  (stdout (sample_main Sample.args Sample.star_unnamed [])
     = [no_micrograph_name] /\
   exit_status (sample_main Sample.args Sample.star_unnamed []) = 0%Z) /\
  (exit_status (sample_main Sample.args Sample.star []) = 0%Z /\
   exists out,
     written (sample_main Sample.args Sample.star [])
       = [(output_star Sample.args, out)]).
Proof.
  split.
  - destruct (@exit_behaviour 53 1024 string Sample.load_img
                Sample.ice_grouper Sample.starfile_write Sample.args
                Sample.star_unnamed [] Sample.table_unnamed eq_refl)
      as [Hnone _].
    destruct (Hnone eq_refl) as [Hout [_ [_ [_ Hst]]]]. now split.
  - destruct (@exit_behaviour 53 1024 string Sample.load_img
                Sample.ice_grouper Sample.starfile_write Sample.args
                Sample.star [] Sample.table eq_refl) as [_ Hsome].
    destruct (Hsome Sample.names eq_refl sample_several_blocks
                sample_well_formed)
      as [_ [_ [Hst Hw]]].
    + simpl. lia.
    + exact sample_tasks_return.
    + exact sample_writable.
    + now split.
Defined.

(** C4 as stated fails twice: without the column the exit status is 0,
    not a failure status; and with the column present the run on the
    table whose particle lies outside the segment image ends on an
    exception, status 1, and writes nothing. *)
Lemma missing_column_exit_status_zero :
  (dict_get "particles"%string Sample.star_unnamed
     = Some Sample.table_unnamed /\
   dict_get "rlnMicrographName"%string (columns Sample.table_unnamed)
     = None /\
   exit_status (Sample.run_of Sample.star_unnamed []) = 0%Z) /\
  (dict_get "particles"%string Sample.star_far = Some Sample.table_far /\
   dict_get "rlnMicrographName"%string (columns Sample.table_far)
     = Some (StrCol ["b.mrc"%string]) /\
   List.length Sample.star_far = 2%nat /\
   written (Sample.run_of Sample.star_far []) = [] /\
   exit_status (Sample.run_of Sample.star_far []) = 1%Z).
Proof. repeat split; vm_compute; reflexivity. Qed.

(** C5 on the sample. *)
Lemma output_table_frame_witness :
  exists t',
    dict_get "particles"%string sample_output = Some t' /\
    index t' = index Sample.table /\
    (forall name, name <> "ibIceGroup"%string ->
       dict_get name (columns t') = dict_get name (columns Sample.table)) /\
    dict_keys (columns t') =
      (if dict_mem "ibIceGroup"%string (columns Sample.table)
       then dict_keys (columns Sample.table)
       else dict_keys (columns Sample.table) ++ ["ibIceGroup"%string]) /\
    (exists labels, labels_of t' = Some labels /\
                    List.length labels = index Sample.table) /\
    dict_keys sample_output = dict_keys Sample.star /\
    (forall block, block <> "particles"%string ->
       dict_get block sample_output = dict_get block Sample.star).
Proof.
  apply (@output_table_frame 53 1024 string Sample.load_img
           Sample.ice_grouper Sample.starfile_write Sample.args Sample.star []
           "extract_particles_icegroups.star"%string sample_output
           Sample.table);
    vm_compute; reflexivity.
Defined.

(** C6 on the sample, with a segmentation that changes the state of its
    process and returns the same image in every state: one worker for
    all chunks and the set in one order, or two workers, the chunks
    coming in the other way round and the set in the reverse order. *)
Lemma labels_schedule_independent_witness :
  let r1 := main_workers 53 1024 Sample.load_img_w
              Sample.ice_grouper_counting Sample.starfile_write 0%nat
              py_set [0; 0]%nat [] Sample.args Sample.star in
  let r2 := main_workers 53 1024 Sample.load_img_w
              Sample.ice_grouper_counting Sample.starfile_write 0%nat
              (fun l => rev (py_set l)) [0; 1]%nat [1]%nat
              Sample.args Sample.star in
  written r1 = written r2 /\
  stdout r1 = stdout r2 /\
  submitted r1 = submitted r2 /\
  (raised r1 = None <-> raised r2 = None).
Proof.
  apply (@labels_schedule_independent 53 1024 string nat Sample.load_img_w
           Sample.ice_grouper_counting Sample.starfile_write 0%nat
           Sample.args Sample.star py_set (fun l => rev (py_set l))
           [0; 0]%nat [] [0; 1]%nat [1]%nat).
  - intros mic w w'. reflexivity.
  - intros img x y n w w'. reflexivity.
  - intros l. apply Permutation_refl.
  - intros l. apply Permutation_rev.
Defined.

(** C6 as stated fails when the segmentation depends on the state of the
    process that runs it.  On the file of two particles in two
    micrographs, with a segmentation whose value is 0.75 for the first
    image a process segments and 0.5 for the later ones, the same input
    and the same configuration give the labels 7500 and 5000 when one
    worker takes both tasks, and 7500 and 7500 when each task is taken
    by a worker of its own. *)
Lemma labels_depend_on_worker :
  (exists out t',
     written (Sample.run_workers [0; 0]%nat)
       = [(output_star Sample.args, out)] /\
     dict_get "particles"%string out = Some t' /\
     labels_of t' = Some [7500; 5000]%Z) /\
  (exists out t',
     written (Sample.run_workers [0; 1]%nat)
       = [(output_star Sample.args, out)] /\
     dict_get "particles"%string out = Some t' /\
     labels_of t' = Some [7500; 7500]%Z) /\
  written (Sample.run_workers [0; 0]%nat)
    <> written (Sample.run_workers [0; 1]%nat).
Proof.
  split; [|split].
  - do 2 eexists. repeat split; vm_compute; reflexivity.
  - do 2 eexists. repeat split; vm_compute; reflexivity.
  - vm_compute. discriminate.
Qed.

(** C8 on the identifiers of the sample, row 2. *)
Lemma mic_coord_partitions_rows_witness :
  let mic_coord := snd (get_unique_micrographs Sample.names) in
  (exists l, dict_get "b.mrc"%string mic_coord = Some l /\
             count_occ Nat.eq_dec l 2 = 1%nat) /\
  (forall mic' l, In (mic', l) mic_coord -> In 2%nat l ->
                  mic' = "b.mrc"%string) /\
  NoDup (dict_keys mic_coord).
Proof.
  apply (@mic_coord_partitions_rows Sample.names 2 "b.mrc"%string).
  reflexivity.
Defined.

(** C9 on row 4 of the sample, at [(x, y) = (-1, -2)]: the read wraps to
    the cell [seg[0][1]]. *)
Lemma unchecked_segment_index_witness :
  pixel Sample.table "rlnCoordinateX" 4 = Ok (-1)%Z /\
  pixel Sample.table "rlnCoordinateY" 4 = Ok (-2)%Z /\
  cell_read Sample.table Sample.seg 4 = Ok (Sample.dyadic 3 (-2)).
Proof.
  assert (Hx : pixel Sample.table "rlnCoordinateX" 4 = Ok (-1)%Z)
    by (vm_compute; reflexivity).
  assert (Hy : pixel Sample.table "rlnCoordinateY" 4 = Ok (-2)%Z)
    by (vm_compute; reflexivity).
  split; [exact Hx|]. split; [exact Hy|].
  destruct (@unchecked_segment_index 53 1024 string Sample.load_img
              Sample.ice_grouper Sample.starfile_write Sample.table Sample.seg 4 (-1)%Z (-2)%Z
              Hx Hy) as [_ [Hin _]].
  destruct Hin as [row [Hrow [_ Hcell]]]; [simpl; lia|].
  vm_compute in Hrow. injection Hrow as <-.
  destruct Hcell as [v [Hv [Hc _]]]; [simpl; lia|].
  vm_compute in Hv. injection Hv as <-. exact Hc.
Defined.

(** C9 as stated fails below minus the extent: the particle of the far
    table has the floored row -3 on a segment image of two rows; the read
    raises [IndexError] instead of wrapping, and the run ends without
    output. *)
Lemma far_negative_coordinate_raises :
  pixel Sample.table_far "rlnCoordinateX" 0 = Ok 0%Z /\
  pixel Sample.table_far "rlnCoordinateY" 0 = Ok (-3)%Z /\
  List.length Sample.seg = 2%nat /\
  segment_of Sample.load_img Sample.ice_grouper Sample.args "b.mrc"
    = Ok (Some Sample.seg) /\
  cell_read Sample.table_far Sample.seg 0 = Raise IndexError /\
  raised (Sample.run_of Sample.star_far []) = Some IndexError /\
  written (Sample.run_of Sample.star_far []) = [].
Proof. repeat split; vm_compute; reflexivity. Qed.

(** C10 on the sample, whose input labels are all 7: the loader returns
    the table with -1 in every row, and the run writes its file. *)
Lemma load_resets_labels_witness :
  labels_of Sample.table = Some [7; 7; 7; 7; 7; 7; 7]%Z /\
  (exists df particles,
     load_star_file Sample.star
       = ([], Ok (df, particles, StrCol Sample.names)) /\
     labels_of particles = Some (repeat (-1)%Z 7) /\
     dict_get "particles"%string df = Some particles) /\
  (exists out,
     written (sample_main Sample.args Sample.star [])
       = [(output_star Sample.args, out)]).
Proof.
  split; [reflexivity|].
  destruct (@load_resets_labels 53 1024 string Sample.load_img
              Sample.ice_grouper Sample.starfile_write Sample.star
              Sample.table (StrCol Sample.names) eq_refl eq_refl)
    as [[df [particles [Hload [Hlab [_ [_ Hdf]]]]]] [_ [_ Hrun]]].
  split.
  - exists df, particles. repeat split; assumption.
  - apply (Hrun Sample.args [] Sample.names eq_refl sample_several_blocks
             sample_well_formed).
    + simpl. lia.
    + exact sample_tasks_return.
    + exact sample_writable.
Defined.

(** * Further properties of the code *)

(** ** The grouper *)

Lemma mic_coord_lists (micrographs_used : list string) :
  map snd (snd (get_unique_micrographs micrographs_used)) =
  map (fun mic => indices_of mic micrographs_used)
      (fst (get_unique_micrographs micrographs_used)).
Proof.
  unfold get_unique_micrographs.
  rewrite get_unique_micrographs_of_eq by apply py_set_spec. simpl.
  rewrite map_map. reflexivity.
Qed.

Lemma index_lists_disjoint (micrographs_used ks : list string) :
  NoDup ks ->
  ForallOrdPairs (fun l1 l2 : list nat => forall a, In a l1 -> ~ In a l2)
    (map (fun mic => indices_of mic micrographs_used) ks).
Proof.
  induction 1 as [|k ks Hnin Hnd IH]; simpl; constructor; [|assumption].
  rewrite Forall_forall. intros l Hl. rewrite in_map_iff in Hl.
  destruct Hl as [k' [<- Hk']]. intros a Ha Ha'.
  apply indices_of_spec in Ha, Ha'. congruence.
Qed.

(** X1.  The index lists of the grouper, one after the other in the
    order of the dictionary, are a rearrangement of the row positions
    [0 .. n-1]: every row is grouped and none is grouped twice. *)
Theorem index_lists_cover_rows (micrographs_used : list string) :
  Permutation
    (List.concat (map snd (snd (get_unique_micrographs micrographs_used))))
    (seq 0 (List.length micrographs_used)).
Proof.
  rewrite mic_coord_lists.
  pose proof (ascending_NoDup (unique_ascending micrographs_used)) as Hnd.
  apply NoDup_Permutation.
  - apply NoDup_concat.
    + rewrite Forall_forall. intros l Hl. rewrite in_map_iff in Hl.
      destruct Hl as [k [<- _]].
      apply ascending_nat_NoDup, indices_of_ascending.
    + now apply index_lists_disjoint.
  - apply seq_NoDup.
  - intros i. rewrite in_concat, in_seq. split.
    + intros [l [Hl Hi]]. rewrite in_map_iff in Hl.
      destruct Hl as [k [<- _]]. apply indices_of_bound in Hi. lia.
    + intros [_ Hi]. simpl in Hi.
      destruct (nth_error micrographs_used i) as [mic|] eqn:E.
      * exists (indices_of mic micrographs_used). split.
        -- rewrite in_map_iff. exists mic. split; [reflexivity|].
           apply unique_In. eapply nth_error_In; eassumption.
        -- now apply indices_of_spec.
      * apply nth_error_None in E. lia.
Qed.

(** X2.  The list of distinct identifiers depends only on which
    identifiers occur: two columns in which the same identifiers occur,
    in whatever order and however many times each, give the same list,
    hence the same tasks in the same order.  Tables that hold the same
    rows in another order are a case of it. *)
Theorem unique_micrographs_row_order (names names' : list string) :
  ((forall mic, In mic names <-> In mic names') ->
   fst (get_unique_micrographs names) = fst (get_unique_micrographs names')) /\
  (Permutation names names' ->
   fst (get_unique_micrographs names) = fst (get_unique_micrographs names')).
Proof.
  assert (Hsame : (forall mic, In mic names <-> In mic names') ->
                  fst (get_unique_micrographs names)
                  = fst (get_unique_micrographs names')).
  { intros Hsame. apply ascending_unique; try apply unique_ascending.
    intros mic. rewrite !unique_In. apply Hsame. }
  split; [exact Hsame|].
  intros Hp. apply Hsame. intros mic.
  split; apply Permutation_in; [assumption | now symmetry].
Qed.

(** ** Pixel coordinates *)

Lemma floor_finite_bounds (s : bool) (m : positive) (e : Z) :
  let z := PyNum.floor_finite s m e in
  (z * 2 ^ Z.max 0 (- e) <= PyNum.signed s m * 2 ^ Z.max 0 e
   < (z + 1) * 2 ^ Z.max 0 (- e))%Z.
Proof.
  cbv zeta. unfold PyNum.floor_finite.
  destruct (Z.leb_spec 0 e) as [He|He].
  - rewrite Z.shiftl_mul_pow2 by assumption.
    rewrite (Z.max_r 0 e), (Z.max_l 0 (- e)) by lia. simpl. lia.
  - rewrite Z.shiftl_div_pow2 by lia.
    rewrite (Z.max_l 0 e), (Z.max_r 0 (- e)) by lia.
    assert (Hp : (0 < 2 ^ (- e))%Z) by (apply Z.pow_pos_nonneg; lia).
    set (a := PyNum.signed s m). set (d := (2 ^ (- e))%Z) in *.
    pose proof (Z.div_mod a d ltac:(lia)) as Hdm.
    pose proof (Z.mod_pos_bound a d Hp) as Hb.
    simpl. nia.
Qed.

(** X3.  [int(np.floor(x))] on a coordinate cell: for a finite float
    [x = (-1)^s * m * 2^e] the pixel index is the integer [z] with
    [z <= x < z + 1] (stated after scaling by the power of two), a zero
    gives 0, a NaN raises [ValueError] and an infinity
    [OverflowError]. *)
Theorem pixel_is_floor (particles : DataFrame) (name : string)
    (l : list spec_float) (part_ind : nat) (x : spec_float) :
  dict_get name (columns particles) = Some (FloatCol l) ->
  nth_error l part_ind = Some x ->
  match x with
  | S754_finite s m e =>
      exists z, pixel particles name part_ind = Ok z /\
        (z * 2 ^ Z.max 0 (- e) <= PyNum.signed s m * 2 ^ Z.max 0 e
         < (z + 1) * 2 ^ Z.max 0 (- e))%Z
  | S754_zero _ => pixel particles name part_ind = Ok 0%Z
  | S754_nan => pixel particles name part_ind = Raise ValueError
  | S754_infinity _ => pixel particles name part_ind = Raise OverflowError
  end.
Proof.
  intros Hc Hx. unfold pixel, dict_item. rewrite Hc. cbn [bind].
  rewrite Hx, py_int_np_floor.
  destruct x as [s|s| |s m e]; try reflexivity.
  cbn [PyNum.floor_of]. eexists. split; [reflexivity|].
  apply floor_finite_bounds.
Qed.

(** ** The task *)

Section TaskExtras.
Variables prec emax : Z.
Variable image : Type.
Variable load_img : string -> result image.
Variable ice_grouper : image -> Z -> Z -> Z -> result (option ndarray).

Local Abbreviation task := (process_particle_icethickness prec emax load_img ice_grouper).
Local Abbreviation segment := (segment_of load_img ice_grouper).

Lemma labelled_rows_keys (particles : DataFrame) (seg_img : option ndarray)
    (part_inds : list nat) (i : nat) :
  In i (dict_keys (labelled_rows prec emax particles seg_img part_inds)) ->
  In i part_inds.
Proof.
  unfold dict_keys, labelled_rows. rewrite in_map_iff.
  intros [[k v] [<- Hin]]. apply in_flat_map in Hin.
  destruct Hin as [j [Hj Hkv]].
  destruct (label_at prec emax particles seg_img j) as [[g|]|e];
    simpl in Hkv; try tauto.
  destruct Hkv as [[= <- <-]|[]]. exact Hj.
Qed.

(** The loop appends to the mapping the labelled rows of its list. *)
Lemma loop_appends (particles : DataFrame) (seg_img : option ndarray)
    (part_inds : list nat) (d0 d : dict nat Z) :
  NoDup part_inds ->
  (forall i, In i part_inds -> ~ In i (dict_keys d0)) ->
  for_each (label_particle prec emax particles seg_img) part_inds d0 = Ok d ->
  d = d0 ++ labelled_rows prec emax particles seg_img part_inds.
Proof.
  intros Hnd. revert d0. induction Hnd as [|a l Hnin Hnd IH]; intros d0 Hfresh.
  - simpl. intros [= <-]. now rewrite app_nil_r.
  - cbn [for_each]. rewrite label_particle_label_at.
    unfold labelled_rows. cbn [flat_map]. fold (labelled_rows prec emax particles seg_img l).
    destruct (label_at prec emax particles seg_img a) as [[g|]|e];
      cbn [bind]; try discriminate.
    + intros Hl. apply IH in Hl.
      * rewrite Hl, dict_set_fresh by (apply Hfresh; now left).
        now rewrite <- app_assoc.
      * intros i Hi. rewrite dict_keys_set. unfold dict_mem.
        assert (Ha : dict_get a d0 = None).
        { apply dict_get_None. apply Hfresh. now left. }
        rewrite Ha. rewrite in_app_iff. intros [Hk | [<- | []]].
        -- apply (Hfresh i); [now right | assumption].
        -- tauto.
    + intros Hl. apply IH in Hl; [exact Hl|].
      intros i Hi. apply Hfresh. now right.
Qed.

(** X4.  What a task returns.  For the index list of its micrograph, the
    task returns exactly when the segment image is obtained and the loop
    body decides for every row of the list, and the mapping it returns
    then holds, in the order of the list, the rows that got a label with
    their labels, and nothing else. *)
Theorem task_result_exact (particles : DataFrame)
    (mic_coord : dict string (list nat)) (args : Args) (mic : string)
    (part_inds : list nat) (r : dict nat Z) :
  dict_get mic mic_coord = Some part_inds ->
  NoDup part_inds ->
  task particles mic_coord args mic = Ok r <->
  exists seg_img,
    segment args mic = Ok seg_img /\
    (forall i, In i part_inds ->
       is_ok (label_at prec emax particles seg_img i) = true) /\
    r = labelled_rows prec emax particles seg_img part_inds.
Proof.
  intros Hm Hnd. rewrite process_particle_icethickness_eq.
  unfold dict_item. split.
  - destruct (segment args mic) as [seg_img|e]; cbn [bind]; [|discriminate].
    rewrite Hm. cbn [bind]. intros Hl. exists seg_img.
    split; [reflexivity|]. split.
    + intros i Hi. destruct (loop_returns _ _ _ _ _ _ Hl) as [Hin _].
      destruct (Hin _ Hi) as [o [Ho _]]. now rewrite Ho.
    + apply loop_appends in Hl; [exact Hl | assumption |].
      intros i _ [].
  - intros [seg_img [Hs [Hall ->]]]. rewrite Hs. cbn [bind].
    rewrite Hm. cbn [bind].
    destruct (@loop_progress prec emax particles seg_img part_inds [] Hall)
      as [d Hd].
    rewrite Hd. f_equal.
    apply loop_appends in Hd; [exact Hd | assumption |].
    intros i _ [].
Qed.

(** Without a segment image the loop only floors the coordinates. *)
Lemma loop_without_image (particles : DataFrame) (part_inds : list nat)
    (d0 : dict nat Z) :
  (forallb (readable particles) part_inds = true ->
   for_each (label_particle prec emax particles None) part_inds d0 = Ok d0) /\
  (forallb (readable particles) part_inds = false ->
   is_ok (for_each (label_particle prec emax particles None) part_inds d0)
   = false).
Proof.
  induction part_inds as [|a l IH]; cbn [forallb for_each].
  - split; [reflexivity | discriminate].
  - unfold label_particle at 1 3, readable at 1 3.
    destruct (pixel particles "rlnCoordinateX" a) as [x1|e1]; cbn [bind is_ok andb];
      [|split; [discriminate | reflexivity]].
    destruct (pixel particles "rlnCoordinateY" a) as [y1|e2]; cbn [bind is_ok andb];
      [|split; [discriminate | reflexivity]].
    exact IH.
Qed.

(** X5.  A micrograph without a segment image.  The coordinates are
    floored before the image is looked at: the task returns the empty
    mapping when both coordinates of every row of the micrograph can be
    floored, and raises as soon as one cannot (a NaN, an infinity, a
    missing column), although no cell would be read. *)
Theorem task_without_segment_image (particles : DataFrame)
    (mic_coord : dict string (list nat)) (args : Args) (mic : string)
    (part_inds : list nat) :
  dict_get mic mic_coord = Some part_inds ->
  segment args mic = Ok None ->
  (forallb (readable particles) part_inds = true ->
   task particles mic_coord args mic = Ok []) /\
  (forallb (readable particles) part_inds = false ->
   is_ok (task particles mic_coord args mic) = false).
Proof.
  intros Hm Hs. rewrite process_particle_icethickness_eq, Hs.
  unfold dict_item. rewrite Hm. cbn [bind].
  apply loop_without_image.
Qed.
End TaskExtras.

(** ** Writing the labels *)

Lemma dict_set_own {K V : Type} `{KeyEq K} (k : K) (v : V) (d : dict K V) :
  dict_get k d = Some v -> dict_set k v d = d.
Proof.
  induction d as [|[k' v'] d IH]; cbn [dict_get dict_set]; [discriminate|].
  destruct (keqb_spec k k') as [->|Hne].
  - now intros [= ->].
  - intros Hg. f_equal. now apply IH.
Qed.

Lemma with_labels_own (particles : DataFrame) (labels : list Z) :
  labels_of particles = Some labels -> with_labels labels particles = particles.
Proof.
  unfold labels_of, with_labels. destruct particles as [n cols].
  cbn [index columns]. intros Hl. f_equal. apply dict_set_own.
  destruct (dict_get "ibIceGroup"%string cols) as [[| |l]|];
    try discriminate. congruence.
Qed.

Lemma keys_unique_value (items : list (nat * Z)) (i : nat) (v v' : Z) :
  NoDup (map fst items) -> In (i, v) items -> In (i, v') items -> v = v'.
Proof.
  intros Hnd Hv Hv'.
  pose proof (@dict_In_get nat Z _ i v items Hnd Hv) as H1.
  pose proof (@dict_In_get nat Z _ i v' items Hnd Hv') as H2.
  congruence.
Qed.

Lemma assign_all_unique (items : list (nat * Z)) (labels : list Z) (i : nat) :
  NoDup (map fst items) ->
  in_table (List.length labels) items = true ->
  nth_error (assign_all items labels) i =
  match dict_get i items with
  | Some v => Some v
  | None => nth_error labels i
  end.
Proof.
  intros Hnd Hb. destruct (dict_get i items) as [v|] eqn:E.
  - rewrite (@assign_all_nth items labels i v);
      [| |exact (in_table_rows _ _ Hb)].
    + assert (Hex : existsb (fun kv => Nat.eqb (fst kv) i) items = true).
      { apply existsb_exists. exists (i, v).
        split; [now apply dict_get_In | apply Nat.eqb_refl]. }
      now rewrite Hex.
    + intros v' Hv'. apply dict_get_In in E.
      exact (@keys_unique_value items i v' v Hnd Hv' E).
  - rewrite (@assign_all_nth items labels i 0%Z);
      [| |exact (in_table_rows _ _ Hb)].
    + assert (Hex : existsb (fun kv => Nat.eqb (fst kv) i) items = false).
      { apply existsb_key_false. now apply dict_get_None. }
      now rewrite Hex.
    + intros v' Hv'. exfalso. apply dict_get_None in E. apply E.
      unfold dict_keys. rewrite in_map_iff. now exists (i, v').
Qed.

(** X6.  Writing one result mapping.  On a table with an integer label
    column, a mapping whose rows are rows of the table and whose labels
    are 64-bit integers is written without error; the table that comes
    back is the one given with a new label column, in which every row of
    the mapping has the label of the mapping and every other row the
    label it had. *)
Theorem apply_ice_group_to_particles_spec (result_ : dict nat Z)
    (particles : DataFrame) (labels : list Z) :
  labels_of particles = Some labels ->
  NoDup (dict_keys result_) ->
  in_table (List.length labels) result_ = true ->
  exists labels',
    apply_ice_group_to_particles result_ particles
      = Ok (with_labels labels' particles) /\
    List.length labels' = List.length labels /\
    forall i, nth_error labels' i =
              match dict_get i result_ with
              | Some v => Some v
              | None => nth_error labels i
              end.
Proof.
  intros Hl Hnd Hb. exists (assign_all result_ labels).
  split; [|split].
  - rewrite <- (@with_labels_own particles labels Hl) at 1.
    rewrite apply_with_labels. now rewrite Hb.
  - apply assign_all_length.
  - intros i. now apply assign_all_unique.
Qed.

Lemma Permutation_concat {A : Type} (L L' : list (list A)) :
  Permutation L L' -> Permutation (List.concat L) (List.concat L').
Proof.
  induction 1 as [|l L L' Hp IH|l1 l2 L|L1 L2 L3 H1 IH1 H2 IH2]; simpl.
  - constructor.
  - now apply Permutation_app_head.
  - rewrite !app_assoc. apply Permutation_app_tail, Permutation_app_comm.
  - now transitivity (List.concat L2).
Qed.

Lemma in_table_perm (n : nat) (items items' : list (nat * Z)) :
  Permutation items items' -> in_table n items = in_table n items'.
Proof.
  intros Hp. unfold in_table.
  destruct (forallb _ items') eqn:E'.
  - rewrite forallb_forall in *. intros kv Hkv. apply E'.
    now apply (Permutation_in _ Hp).
  - destruct (forallb _ items) eqn:E; [|reflexivity].
    rewrite <- E'. symmetry. rewrite forallb_forall in *.
    intros kv Hkv. apply E. now apply (Permutation_in _ (Permutation_sym Hp)).
Qed.

(** X7.  Writing the result mappings in another order.  When the rows
    named by the mappings are rows of the table, the labels are 64-bit
    integers and no row is named by two items, all mappings are written
    without error and the table that results does not depend on the
    order in which they are written. *)
Theorem apply_order_irrelevant (results results' : list (dict nat Z))
    (particles : DataFrame) (labels : list Z) :
  labels_of particles = Some labels ->
  Permutation results results' ->
  NoDup (map fst (List.concat results)) ->
  in_table (List.length labels) (List.concat results) = true ->
  exists particles',
    for_each (fun p r => apply_ice_group_to_particles r p) results particles
      = Ok particles' /\
    for_each (fun p r => apply_ice_group_to_particles r p) results' particles
      = Ok particles'.
Proof.
  intros Hl Hp Hnd Hb. rewrite <- (@with_labels_own particles labels Hl).
  rewrite !apply_all_with_labels.
  pose proof (@Permutation_concat _ results results' Hp) as Hc.
  rewrite <- (@in_table_perm (List.length labels) _ _ Hc), Hb.
  eexists. split; [reflexivity|].
  do 2 f_equal. apply nth_error_ext. intros i.
  assert (Hnd' : NoDup (map fst (List.concat results'))).
  { eapply Permutation_NoDup; [|exact Hnd]. now apply Permutation_map. }
  rewrite !assign_all_unique; try assumption.
  - destruct (dict_get i (List.concat results)) as [v|] eqn:E.
    + apply dict_get_In in E. apply (Permutation_in _ Hc) in E.
      now rewrite (@dict_In_get nat Z _ i v _ Hnd' E).
    + destruct (dict_get i (List.concat results')) as [v'|] eqn:E';
        [|reflexivity].
      apply dict_get_In in E'.
      apply (Permutation_in _ (Permutation_sym Hc)) in E'.
      now rewrite (@dict_In_get nat Z _ i v' _ Hnd E') in E.
  - now rewrite <- (@in_table_perm (List.length labels) _ _ Hc).
Qed.

(** ** The pool *)

(** The first choice of a schedule names the task that completes first. *)
Lemma completion_order_head (n i : nat) (choices : list nat) :
  (i < n)%nat ->
  exists rest, completion_order n (i :: choices) (seq 0 n) = i :: rest.
Proof.
  intros Hlt. destruct n as [|n]; [lia|].
  remember (seq 0 (S n)) as pending eqn:Hp.
  destruct pending as [|p0 pending']; [discriminate|].
  cbn [completion_order hd tl]. eexists. f_equal.
  rewrite Hp, length_seq, (Nat.mod_small _ _ Hlt).
  now rewrite seq_nth.
Qed.

Section PoolExtras.
Context {T R : Type}.
Variable f : T -> result R.
Variable tasks : list T.

Lemma complete_failure_kept (st : @pool_state R) (i : nat) (e : exn) :
  failure st = Some e -> failure (complete f tasks st i) = Some e.
Proof.
  unfold complete. intros Hf. destruct (nth_error tasks i); [|assumption].
  rewrite Hf. now destruct (f t).
Qed.

Lemma fold_failure_kept (order : list nat) (st : @pool_state R) (e : exn) :
  failure st = Some e ->
  failure (fold_left (complete f tasks) order st) = Some e.
Proof.
  revert st. induction order as [|i order IH]; intros st Hf; simpl;
    [assumption|].
  apply IH. now apply complete_failure_kept.
Qed.

(** The stored exception is the exception of a task. *)
Lemma fold_failure_origin (order : list nat) (st : @pool_state R) (e : exn) :
  failure st = None ->
  failure (fold_left (complete f tasks) order st) = Some e ->
  exists t, In t tasks /\ f t = Raise e.
Proof.
  revert st. induction order as [|i order IH]; intros st Hf; simpl.
  - congruence.
  - unfold complete at 2. destruct (nth_error tasks i) as [t|] eqn:Ht;
      [|now apply IH].
    rewrite Hf. destruct (f t) as [r|e'] eqn:Hft.
    + apply IH. reflexivity.
    + rewrite fold_failure_kept with (e := e') by reflexivity.
      intros [= <-].
      exists t. split; [eapply nth_error_In; eassumption | assumption].
Qed.

Lemma starmap_raise_origin (choices : list nat) (e : exn) :
  starmap f tasks choices = Raise e ->
  exists t, In t tasks /\ f t = Raise e.
Proof.
  intros Hs.
  destruct (forallb (fun t => is_ok (f t)) tasks) eqn:Hall.
  - exfalso. rewrite forallb_forall in Hall.
    destruct (@all_return _ _ f tasks) as [rs Hrs].
    { intros t Ht. specialize (Hall _ Ht).
      destruct (f t) as [r|]; [now exists r | discriminate]. }
    rewrite (@starmap_returns _ _ f tasks rs choices Hrs) in Hs. discriminate.
  - unfold starmap in Hs.
    set (st := fold_left _ _ _) in Hs.
    destruct (failure st) as [e'|] eqn:Hf.
    + injection Hs as <-. eapply fold_failure_origin; [|exact Hf]. reflexivity.
    + exfalso.
      assert (Hex : exists t, In t tasks /\ is_ok (f t) = false).
      { clear -Hall. induction tasks as [|t l IH]; simpl in Hall;
          [discriminate|].
        apply andb_false_iff in Hall. destruct Hall as [Ht|Hl].
        - exists t. split; [now left | assumption].
        - destruct (IH Hl) as [t' [Hin Ht']]. exists t'. split;
            [now right | assumption]. }
      destruct Hex as [t [Hin Ht]].
      destruct (In_nth_error _ _ Hin) as [i Hi].
      destruct (f t) as [r|e0] eqn:Hft; [discriminate|].
      pose proof (completion_order_perm choices (seq 0 (List.length tasks)))
        as Hp. rewrite length_seq in Hp.
      assert (Hio : In i (completion_order (List.length tasks) choices
                            (seq 0 (List.length tasks)))).
      { apply (Permutation_in _ Hp). apply in_seq. split; [lia|]. simpl.
        apply nth_error_Some. congruence. }
      apply (@fold_failure _ _ f tasks _
               {| slots := repeat None (List.length tasks); failure := None |}
               i t e0 Hio Hi Hft).
      exact Hf.
Qed.

(** The task that completes first and raises decides the exception. *)
Lemma starmap_raise_first (i : nat) (t : T) (e : exn) :
  nth_error tasks i = Some t -> f t = Raise e ->
  starmap f tasks [i] = Raise e.
Proof.
  intros Hi Hft. unfold starmap.
  assert (Hlt : (i < List.length tasks)%nat).
  { apply nth_error_Some. congruence. }
  destruct (@completion_order_head (List.length tasks) i [] Hlt)
    as [rest ->].
  cbn [fold_left].
  rewrite fold_failure_kept with (e := e); [reflexivity|].
  unfold complete. rewrite Hi, Hft. reflexivity.
Qed.
End PoolExtras.

(** ** The pool of workers and the pool of tasks *)

Lemma get_tasks_concat {T : Type} (fuel size : nat) (l : list T) :
  (List.length l <= fuel)%nat -> l = [] \/ (1 <= size)%nat ->
  List.concat (get_tasks fuel size l) = l.
Proof.
  revert l. induction fuel as [|fuel IH]; intros l Hlen Hsize.
  - destruct l; [reflexivity | simpl in Hlen; lia].
  - cbn [get_tasks]. destruct (firstn size l) as [|x xs] eqn:E.
    + destruct Hsize as [->|Hs]; [reflexivity|].
      destruct l as [|a l]; [reflexivity|].
      destruct size; [lia | discriminate].
    + cbn [List.concat]. rewrite IH.
      * rewrite <- E. apply firstn_skipn.
      * rewrite length_skipn. destruct size; [discriminate|].
        destruct l; [discriminate|]. simpl in *. lia.
      * destruct Hsize as [->|Hs]; [|now right].
        rewrite firstn_nil in E. discriminate.
Qed.

Lemma chunk_size_pos (n processes : nat) :
  (1 <= n)%nat -> (1 <= chunk_size n processes)%nat.
Proof.
  intros Hn. unfold chunk_size. cbv zeta.
  destruct (Nat.eqb_spec (Nat.modulo n (4 * processes)) 0) as [E|E]; [|lia].
  pose proof (Nat.div_mod_eq n (4 * processes)) as Hd. rewrite E in Hd.
  destruct (Nat.div n (4 * processes)); lia.
Qed.

Section WorkerPoolPure.
Context {T R W : Type}.
Variable f : T -> W -> result R * W.
Variable g : T -> result R.
Hypothesis Hpure : forall t w, fst (f t w) = g t.

Lemma run_chunk_pure (chunk : list T) (w : W) :
  match fst (run_chunk f chunk w) with
  | Ok rs => Forall2 (fun t r => g t = Ok r) chunk rs
  | Raise e => exists t, In t chunk /\ g t = Raise e
  end.
Proof.
  revert w. induction chunk as [|t chunk IH]; intros w; cbn [run_chunk].
  - constructor.
  - pose proof (Hpure t w) as Hf.
    destruct (f t w) as [[r|e] w1]; cbn [fst] in Hf.
    + specialize (IH w1).
      destruct (run_chunk f chunk w1) as [[rs|e] w2]; cbn [fst bind] in *.
      * constructor; [now symmetry | assumption].
      * destruct IH as [t' [Hin Ht']]. exists t'.
        split; [now right | assumption].
    + cbn [fst]. exists t. split; [now left | now symmetry].
Qed.

Lemma dispatch_pure (processes : nat) (w0 : W) (chunks : list (list T))
    (assign : list nat) (ws : list W) :
  Forall2 (fun c o =>
             match o with
             | Ok rs => Forall2 (fun t r => g t = Ok r) c rs
             | Raise e => exists t, In t c /\ g t = Raise e
             end)
          chunks (dispatch f processes w0 chunks assign ws).
Proof.
  revert assign ws. induction chunks as [|c chunks IH]; intros assign ws;
    cbn [dispatch]; [constructor|].
  cbv zeta.
  pose proof (run_chunk_pure c
                (nth (Nat.modulo (hd 0%nat assign) processes) ws w0)) as Hc.
  destruct (run_chunk f c _) as [res w1]. cbn [fst] in Hc.
  constructor; [exact Hc | apply IH].
Qed.

Lemma outcomes_concat (chunks : list (list T))
    (outs : list (result (list R))) (rss : list (list R)) :
  Forall2 (fun c o =>
             match o with
             | Ok rs => Forall2 (fun t r => g t = Ok r) c rs
             | Raise e => exists t, In t c /\ g t = Raise e
             end) chunks outs ->
  Forall2 (fun o rs => o = Ok rs) outs rss ->
  Forall2 (fun t r => g t = Ok r) (List.concat chunks) (List.concat rss).
Proof.
  intros HQ. revert rss.
  induction HQ as [|c o chunks outs Hco HQ IH]; intros rss Hr;
    inversion Hr as [|o' rs outs' rss' Ho Hrest]; subst; cbn [List.concat].
  - constructor.
  - apply Forall2_app; [exact Hco | now apply IH].
Qed.

(** With tasks whose results do not depend on the state of the worker,
    the pool of workers returns the results of the tasks in the order of
    the tasks, or raises the exception of one of them. *)
Lemma starmap_workers_pure (processes : nat) (w0 : W) (tasks : list T)
    (assign choices : list nat) :
  match starmap_workers f processes w0 tasks assign choices with
  | Ok rs => Forall2 (fun t r => g t = Ok r) tasks rs
  | Raise e => exists t, In t tasks /\ g t = Raise e
  end.
Proof.
  unfold starmap_workers. cbv zeta.
  assert (Hc : List.concat
                 (get_tasks (List.length tasks)
                    (chunk_size (List.length tasks) processes) tasks)
               = tasks).
  { apply get_tasks_concat; [lia|].
    destruct tasks; [now left | right]. apply chunk_size_pos. simpl. lia. }
  set (chunks := get_tasks _ _ tasks) in *.
  pose proof (dispatch_pure processes w0 chunks assign (repeat w0 processes))
    as HQ.
  set (outs := dispatch f processes w0 chunks assign _) in *.
  destruct (starmap (fun o : result (list R) => o) outs choices)
    as [rss|e] eqn:Hs; cbn [bind].
  - apply starmap_Ok_iff in Hs. rewrite <- Hc.
    now apply (outcomes_concat HQ).
  - destruct (starmap_raise_origin _ _ _ Hs) as [o [Ho Hoe]]. subst o.
    destruct (In_nth_error _ _ Ho) as [j Hj].
    destruct (Forall2_nth_left _ (Forall2_flip HQ) Hj) as [c [Hc' Hq]].
    destruct Hq as [t [Hin Ht]]. exists t. split; [|exact Ht].
    rewrite <- Hc. apply in_concat. exists c.
    split; [eapply nth_error_In; eassumption | assumption].
Qed.
End WorkerPoolPure.

(** ** The run *)

Section RunExtras.
Variables prec emax : Z.
Variable image : Type.
Variable load_img : string -> result image.
Variable ice_grouper : image -> Z -> Z -> Z -> result (option ndarray).
Variable starfile_write : document -> string -> result unit.

Local Abbreviation task := (process_particle_icethickness prec emax load_img ice_grouper).
Local Abbreviation the_main :=
  (main prec emax load_img ice_grouper starfile_write).
Local Abbreviation segment := (segment_of load_img ice_grouper).

Section Loaded.
Variable args : Args.
Variable star_file : document.
Variable t : DataFrame.
Variable names : list string.
Hypothesis Ht : dict_get "particles"%string star_file = Some t.
Hypothesis Hn :
  dict_get "rlnMicrographName"%string (columns t) = Some (StrCol names).

Local Abbreviation particles := (with_labels (repeat (-1)%Z (index t)) t).
Local Abbreviation mic_coord := (snd (get_unique_micrographs names)).
Local Abbreviation micrographs_unique := (fst (get_unique_micrographs names)).

Lemma results_in_table (results : list (dict nat Z)) :
  well_formed t ->
  Forall2 (fun mic r => task particles mic_coord args mic = Ok r)
          micrographs_unique results ->
  forallb (fun kv : nat * Z => (fst kv <? index t)%nat) (List.concat results)
    = true.
Proof.
  intros Hwf Hres. apply forallb_forall.
  intros [k v] Hkv. simpl. apply Nat.ltb_lt.
  pose proof (@items_in_range prec emax image load_img ice_grouper
                t names args results Hres k v Hkv) as Hk.
  pose proof (dict_get_In _ _ Hn) as Hin. unfold well_formed in Hwf.
  rewrite Forall_forall in Hwf. specialize (Hwf _ Hin). simpl in Hwf. lia.
Qed.

(** The document a run writes from the results of its tasks. *)
Local Abbreviation output_of results :=
  (dict_set "particles"%string
     (with_labels (assign_all (List.concat results) (repeat (-1)%Z (index t)))
        t) star_file).

(** X8.  When the run succeeds.  On a well-formed table with a column of
    identifiers, in a file of several blocks, the run ends without
    exception exactly when the pool has a worker, the task of every
    micrograph a row names returns, every label the tasks return is a
    64-bit integer and the writer takes the document; it has then
    written one file, at the output path, and in every other case it has
    written none. *)
Theorem run_succeeds_iff (choices : list nat) :
  well_formed t ->
  several_blocks star_file ->
  let r := the_main args star_file choices in
  (raised r = None <->
   (1 <= cpus args)%Z /\
   exists results,
     Forall2 (fun mic res => task particles mic_coord args mic = Ok res)
             micrographs_unique results /\
     (forall mic, In mic names ->
        is_ok (task particles mic_coord args mic) = true) /\
     forallb (fun kv : nat * Z => int64 (snd kv)) (List.concat results)
       = true /\
     starfile_write (output_of results) (output_star args) = Ok tt) /\
  (raised r = None -> exists out, written r = [(output_star args, out)]) /\
  (raised r <> None -> written r = []).
Proof.
  intros Hwf _. cbv zeta. rewrite main_cases, Ht, Hn.
  cbn [column_strings]. cbv zeta.
  destruct (Z.ltb_spec (cpus args) 1) as [Hc|Hc].
  { split; [split; [discriminate | intros [H _]; lia]|].
    split; [discriminate|reflexivity]. }
  destruct (starmap (task particles mic_coord args) micrographs_unique choices)
    as [results|e] eqn:Hs.
  - pose proof Hs as Hres. apply starmap_Ok_iff in Hres.
    assert (Hsame : forall results',
              Forall2 (fun mic res => task particles mic_coord args mic = Ok res)
                      micrographs_unique results' -> results' = results).
    { intros results' Hres'.
      apply (@starmap_returns _ _ _ _ results' choices) in Hres'. congruence. }
    rewrite in_table_split, (results_in_table Hwf Hres). cbn [andb].
    destruct (forallb (fun kv : nat * Z => int64 (snd kv))
                (List.concat results)) eqn:Hi.
    + destruct (starfile_write (output_of results) (output_star args))
        as [[]|e] eqn:Hw; cbn [stopped raised written].
      * split; [split|split].
        -- intros _. split; [assumption|]. exists results.
           split; [assumption|]. split; [|split; assumption].
           intros mic Hmic. apply unique_In in Hmic.
           destruct (In_nth_error _ _ Hmic) as [j Hj].
           destruct (Forall2_nth_left _ Hres Hj) as [r [_ Hr]].
           now rewrite Hr.
        -- reflexivity.
        -- intros _. eexists. reflexivity.
        -- congruence.
      * split; [split|split]; try discriminate; try reflexivity.
        intros [_ [results' [Hres' [_ [_ Hw']]]]].
        rewrite (Hsame _ Hres') in Hw'. congruence.
    + cbn [stopped raised written].
      split; [split|split]; try discriminate; try reflexivity.
      intros [_ [results' [Hres' [_ [Hi' _]]]]].
      rewrite (Hsame _ Hres') in Hi'. congruence.
  - cbn [stopped raised written].
    split; [split|split]; try discriminate; try reflexivity.
    intros [_ [results [Hres _]]].
    apply (@starmap_returns _ _ _ _ results choices) in Hres. congruence.
Qed.


(** X10.  The tasks of a run.  When the pool is reached, every micrograph
    that a row names is handed to it once, however many rows name it, in
    ascending order of the identifiers, and nothing else is. *)
Theorem every_micrograph_submitted_once (choices : list nat) :
  (1 <= cpus args)%Z ->
  let r := the_main args star_file choices in
  StronglySorted str_lt (submitted r) /\
  forall mic,
    count_occ string_dec (submitted r) mic =
    if in_dec string_dec mic names then 1%nat else 0%nat.
Proof.
  intros Hc. cbv zeta.
  assert (Hsub : submitted (the_main args star_file choices)
                 = micrographs_unique).
  { rewrite main_cases, Ht, Hn. cbn [column_strings]. cbv zeta.
    destruct (Z.ltb_spec (cpus args) 1); [lia|].
    destruct (starmap _ _ choices) as [results|e]; [|reflexivity].
    destruct (in_table _ _); [|reflexivity].
    now destruct (starfile_write _ _). }
  rewrite Hsub. split; [apply unique_ascending|].
  intros mic. destruct (in_dec string_dec mic names) as [Hin|Hnin].
  - apply NoDup_count_occ'.
    + apply ascending_NoDup, unique_ascending.
    + now apply unique_In.
  - apply count_occ_not_In. now rewrite unique_In.
Qed.
End Loaded.

(** X11.  A file without a block of particles: the lookup of the block
    raises [KeyError] before anything is printed, handed to the pool or
    written, and the interpreter ends with status 1. *)
Theorem missing_particles_block (args : Args) (star_file : document)
    (choices : list nat) :
  dict_get "particles"%string star_file = None ->
  the_main args star_file choices = stopped [] [] KeyError /\
  exit_status (the_main args star_file choices) = 1%Z.
Proof.
  intros Hp. rewrite main_cases, Hp. split; reflexivity.
Qed.

(** X12.  A table without particles.  With a column of identifiers
    that has no cell, whatever type the reader gave it, in a file of
    several blocks, with a pool that has a worker and a writer that
    takes the document, the run hands nothing to the pool, consults no
    image and ends normally; the file it writes is the input with the
    label column set to -1 in the particle table. *)
Theorem empty_table_run (args : Args) (star_file : document)
    (choices : list nat) (t : DataFrame) (c : column) :
  dict_get "particles"%string star_file = Some t ->
  dict_get "rlnMicrographName"%string (columns t) = Some c ->
  c = StrCol [] \/ c = FloatCol [] \/ c = IntCol [] ->
  several_blocks star_file ->
  (1 <= cpus args)%Z ->
  starfile_write
    (dict_set "particles"%string
       (with_labels (repeat (-1)%Z (index t)) t) star_file)
    (output_star args) = Ok tt ->
  the_main args star_file choices =
  {| stdout := [];
     submitted := [];
     written :=
       [(output_star args,
         dict_set "particles"%string
           (with_labels (repeat (-1)%Z (index t)) t) star_file)];
     raised := None |}.
Proof.
  intros Ht Hn Hempty _ Hc Hw. rewrite main_cases, Ht, Hn.
  assert (Hnames : column_strings c = Ok [])
    by (destruct Hempty as [->|[->| ->]]; reflexivity).
  rewrite Hnames. cbv zeta.
  destruct (Z.ltb_spec (cpus args) 1); [lia|].
  change (fst (get_unique_micrographs [])) with (@nil string).
  change (starmap (process_particle_icethickness prec emax load_img
                     ice_grouper
                     (with_labels (repeat (-1)%Z (index t)) t)
                     (snd (get_unique_micrographs [])) args) [] choices)
    with (@Ok (list (dict nat Z)) []).
  cbn [List.concat in_table forallb assign_all fold_left].
  now rewrite Hw.
Qed.
End RunExtras.

Section OutputExtras.
Variables prec emax : Z.
Variable image : Type.
Variable load_img : string -> result image.
Variable ice_grouper : image -> Z -> Z -> Z -> result (option ndarray).
Variable starfile_write : document -> string -> result unit.

Local Abbreviation the_main :=
  (main prec emax load_img ice_grouper starfile_write).
Local Abbreviation segment := (segment_of load_img ice_grouper).

(** X13.  The labels of the output, row by row.  In the file a run
    writes, the particle table has one label per row, and the label of a
    row is the one the loop body decides on for this row with the segment
    image of the micrograph the row names, and -1 when it decides on
    none or the row names no micrograph. *)
Theorem output_labels_formula (args : Args) (star_file : document)
    (choices : list nat) (path : string) (out : document) (t : DataFrame)
    (names : list string) :
  written (the_main args star_file choices) = [(path, out)] ->
  dict_get "particles"%string star_file = Some t ->
  dict_get "rlnMicrographName"%string (columns t) = Some (StrCol names) ->
  exists t' labels,
    dict_get "particles"%string out = Some t' /\
    labels_of t' = Some labels /\
    List.length labels = index t /\
    forall i, (i < index t)%nat ->
      nth_error labels i =
      Some match nth_error names i with
           | Some mic =>
               match segment args mic with
               | Ok seg_img =>
                   match label_at prec emax t seg_img i with
                   | Ok (Some group) => group
                   | _ => (-1)%Z
                   end
               | Raise _ => (-1)%Z
               end
           | None => (-1)%Z
           end.
Proof.
  intros Hw Ht Hn.
  destruct (@main_labels prec emax image load_img ice_grouper starfile_write
              args star_file choices path out t names Hw Ht Hn)
    as [labels [Hout [Hlen Hlab]]].
  exists (with_labels labels t), labels. subst out.
  rewrite dict_get_set_same, labels_of_with_labels.
  repeat split; try assumption.
  intros i Hi. specialize (Hlab i).
  destruct (nth_error names i) as [mic|].
  - destruct Hlab as [seg_img [o [Hs [Ho Hl]]]].
    rewrite Hs, Ho, Hl. destruct o; [reflexivity|].
    now apply nth_repeat_sentinel.
  - rewrite Hlab. now apply nth_repeat_sentinel.
Qed.
End OutputExtras.

Section WorkersAgree.
Variables prec emax : Z.
Variables image W : Type.
Variable load_img : string -> result image.
Variable ice_grouper : image -> Z -> Z -> Z -> result (option ndarray).
Variable starfile_write : document -> string -> result unit.
Variable load_img_w : string -> W -> result image * W.
Variable ice_grouper_w :
  image -> Z -> Z -> Z -> W -> result (option ndarray) * W.
Hypothesis Hload : forall mic w, fst (load_img_w mic w) = load_img mic.
Hypothesis Hseg :
  forall img x y n w, fst (ice_grouper_w img x y n w) = ice_grouper img x y n.

Lemma process_in_worker_pure (particles : DataFrame)
    (mic_coord : dict string (list nat)) (args : Args) (mic : string)
    (w : W) :
  fst (process_in_worker prec emax load_img_w ice_grouper_w
         particles mic_coord args mic w) =
  process_particle_icethickness prec emax load_img ice_grouper
    particles mic_coord args mic.
Proof.
  unfold process_in_worker, process_particle_icethickness.
  pose proof (Hload mic w) as Hl.
  destruct (load_img_w mic w) as [[img|e] w1]; cbn [fst] in Hl;
    rewrite <- Hl; cbn [bind fst]; [|reflexivity].
  pose proof (Hseg img (x_patches args) (y_patches args)
                (num_of_segments args) w1) as Hs.
  destruct (ice_grouper_w img _ _ _ w1) as [[seg_img|e] w2];
    cbn [fst] in Hs; rewrite <- Hs; reflexivity.
Qed.

(** X14.  The pool of workers and the schedules of the tasks.  When the
    imported functions return the same result in every state of the
    process, every run with the pool of workers (tasks in chunks, a
    worker for every chunk, its state carried from task to task, the set
    iterated in any order) is the run of the script under some schedule
    of the tasks: what holds of the script under every schedule holds
    of the run with the workers. *)
Theorem workers_run_is_scheduled_run (w0 : W)
    (set_list : list string -> list string) (assign choices : list nat)
    (args : Args) (star_file : document) :
  (forall l, Permutation (py_set l) (set_list l)) ->
  exists choices',
    main_workers prec emax load_img_w ice_grouper_w starfile_write
      w0 set_list assign choices args star_file =
    main prec emax load_img ice_grouper starfile_write
      args star_file choices'.
Proof.
  intros Hset. unfold main_workers. rewrite script_cases by exact Hset.
  destruct (dict_get "particles"%string star_file) as [t|] eqn:Ht;
    [|exists []; now rewrite main_cases, Ht].
  destruct (dict_get "rlnMicrographName"%string (columns t)) as [c|] eqn:Hn;
    [|exists []; now rewrite main_cases, Ht, Hn].
  destruct (column_strings c) as [names|e] eqn:Hc;
    [|exists []; now rewrite main_cases, Ht, Hn, Hc].
  cbv zeta. destruct (cpus args <? 1)%Z eqn:Hcpu;
    [exists []; rewrite main_cases, Ht, Hn, Hc; cbv zeta; now rewrite Hcpu|].
  pose proof (@starmap_workers_pure _ _ _
                (process_in_worker prec emax load_img_w ice_grouper_w
                   (with_labels (repeat (-1)%Z (index t)) t)
                   (snd (get_unique_micrographs names)) args)
                (process_particle_icethickness prec emax load_img ice_grouper
                   (with_labels (repeat (-1)%Z (index t)) t)
                   (snd (get_unique_micrographs names)) args)
                (process_in_worker_pure _ _ args)
                (Z.to_nat (cpus args)) w0
                (fst (get_unique_micrographs names)) assign choices) as Hp.
  destruct (starmap_workers _ _ w0 _ assign choices) as [rs|e].
  - exists []. rewrite main_cases, Ht, Hn, Hc. cbv zeta. rewrite Hcpu.
    now rewrite (@starmap_returns _ _ _ _ rs [] Hp).
  - destruct Hp as [mic [Hin Hr]]. destruct (In_nth_error _ _ Hin) as [i Hi].
    exists [i]. rewrite main_cases, Ht, Hn, Hc. cbv zeta. rewrite Hcpu.
    now rewrite (@starmap_raise_first _ _ _ _ i mic e Hi Hr).
Qed.
End WorkersAgree.

(** X13 on the sample run. *)
Lemma output_labels_formula_witness :
  exists t' labels,
    dict_get "particles"%string sample_output = Some t' /\
    labels_of t' = Some labels /\
    List.length labels = 7%nat /\
    forall i, (i < 7)%nat ->
      nth_error labels i =
      Some match nth_error Sample.names i with
           | Some mic =>
               match segment_of Sample.load_img Sample.ice_grouper
                       Sample.args mic with
               | Ok seg_img =>
                   match label_at 53 1024 Sample.table seg_img i with
                   | Ok (Some group) => group
                   | _ => (-1)%Z
                   end
               | Raise _ => (-1)%Z
               end
           | None => (-1)%Z
           end.
Proof.
  apply (@output_labels_formula 53 1024 string Sample.load_img
           Sample.ice_grouper Sample.starfile_write Sample.args Sample.star []
           "extract_particles_icegroups.star"%string sample_output
           Sample.table Sample.names);
    vm_compute; reflexivity.
Defined.

(** ** The further properties on the sample run *)

(** X2 on the seven identifiers of the sample and a column of two rows
    that names the same two micrographs. *)
Lemma unique_micrographs_row_order_witness :
  List.length Sample.names = 7%nat /\
  fst (get_unique_micrographs Sample.names) =
  fst (get_unique_micrographs ["a.mrc"; "b.mrc"]%string) /\
  fst (get_unique_micrographs Sample.names) =
  fst (get_unique_micrographs (rev Sample.names)).
Proof.
  split; [reflexivity|]. split.
  - apply (proj1 (@unique_micrographs_row_order Sample.names
                    ["a.mrc"; "b.mrc"]%string)).
    intros mic. simpl. tauto.
  - apply (proj2 (@unique_micrographs_row_order Sample.names
                    (rev Sample.names))).
    apply Permutation_rev.
Defined.

(** X3 on row 4 of the sample, whose [y] is -1.5: the pixel row is -2. *)
Lemma pixel_is_floor_witness :
  exists z,
    pixel Sample.table "rlnCoordinateY" 4 = Ok z /\
    (z * 2 ^ Z.max 0 (- (-52))
     <= PyNum.signed true 6755399441055744 * 2 ^ Z.max 0 (-52)
     < (z + 1) * 2 ^ Z.max 0 (- (-52)))%Z.
Proof.
  refine (@pixel_is_floor Sample.table "rlnCoordinateY"%string _ 4
            (S754_finite true 6755399441055744 (-52)) _ _);
    vm_compute; reflexivity.
Defined.

(** X4 on the task of [b.mrc] in the sample: rows 0, 2 and 4 get a label,
    row 6 reads a NaN and gets none. *)
Lemma task_result_exact_witness :
  process_particle_icethickness 53 1024 Sample.load_img Sample.ice_grouper
    Sample.table (snd (get_unique_micrographs Sample.names)) Sample.args
    "b.mrc" = Ok [(0%nat, 0%Z); (2%nat, 7500%Z); (4%nat, 7500%Z)] <->
  exists seg_img,
    segment_of Sample.load_img Sample.ice_grouper Sample.args "b.mrc"
      = Ok seg_img /\
    (forall i, In i [0; 2; 4; 6]%nat ->
       is_ok (label_at 53 1024 Sample.table seg_img i) = true) /\
    [(0%nat, 0%Z); (2%nat, 7500%Z); (4%nat, 7500%Z)] =
    labelled_rows 53 1024 Sample.table seg_img [0; 2; 4; 6]%nat.
Proof.
  apply (@task_result_exact 53 1024 string Sample.load_img
           Sample.ice_grouper Sample.table
           (snd (get_unique_micrographs Sample.names)) Sample.args
           "b.mrc"%string [0; 2; 4; 6]%nat).
  - vm_compute. reflexivity.
  - repeat (constructor; [simpl; lia|]). constructor.
Defined.

(** X5 on the sample: [a.mrc] has no segment image and readable rows; a
    row with a NaN for [x] makes the same task raise. *)
Lemma task_without_segment_image_witness :
  process_particle_icethickness 53 1024 Sample.load_img Sample.ice_grouper
    Sample.table (snd (get_unique_micrographs Sample.names)) Sample.args
    "a.mrc" = Ok [] /\
  is_ok (process_particle_icethickness 53 1024 Sample.load_img
           Sample.ice_grouper
           {| index := 1;
              columns := [("rlnCoordinateX"%string, FloatCol [S754_nan]);
                          ("rlnCoordinateY"%string,
                           FloatCol [S754_zero false])] |}
           [("a.mrc"%string, [0%nat])] Sample.args "a.mrc") = false.
Proof.
  split.
  - apply (@task_without_segment_image 53 1024 string Sample.load_img
             Sample.ice_grouper Sample.table
             (snd (get_unique_micrographs Sample.names)) Sample.args
             "a.mrc"%string [1; 3; 5]%nat);
      vm_compute; reflexivity.
  - apply (@task_without_segment_image 53 1024 string Sample.load_img
             Sample.ice_grouper _ [("a.mrc"%string, [0%nat])] Sample.args
             "a.mrc"%string [0%nat]);
      vm_compute; reflexivity.
Defined.

(** X6 on the table of the sample, whose labels are all 7. *)
Lemma apply_ice_group_to_particles_spec_witness :
  exists labels',
    apply_ice_group_to_particles [(0%nat, 0%Z); (2%nat, 7500%Z)] Sample.table
      = Ok (with_labels labels' Sample.table) /\
    List.length labels' = 7%nat /\
    forall i, nth_error labels' i =
              match dict_get i [(0%nat, 0%Z); (2%nat, 7500%Z)] with
              | Some v => Some v
              | None => nth_error [7; 7; 7; 7; 7; 7; 7]%Z i
              end.
Proof.
  apply (@apply_ice_group_to_particles_spec
           [(0%nat, 0%Z); (2%nat, 7500%Z)] Sample.table
           [7; 7; 7; 7; 7; 7; 7]%Z).
  - reflexivity.
  - repeat (constructor; [simpl; lia|]). constructor.
  - reflexivity.
Defined.

(** A label beyond the 64-bit integers is not stored. *)
Lemma label_beyond_int64_not_stored :
  is_ok (apply_ice_group_to_particles [(0%nat, (2 ^ 63)%Z)] Sample.table)
    = false.
Proof. vm_compute. reflexivity. Qed.

(** X7 on two mappings of the sample, written in either order. *)
Lemma apply_order_irrelevant_witness :
  exists particles',
    for_each (fun p r => apply_ice_group_to_particles r p)
      [[(0%nat, 0%Z)]; [(2%nat, 7500%Z); (4%nat, 7500%Z)]] Sample.table
      = Ok particles' /\
    for_each (fun p r => apply_ice_group_to_particles r p)
      [[(2%nat, 7500%Z); (4%nat, 7500%Z)]; [(0%nat, 0%Z)]] Sample.table
      = Ok particles'.
Proof.
  apply (@apply_order_irrelevant
           [[(0%nat, 0%Z)]; [(2%nat, 7500%Z); (4%nat, 7500%Z)]]
           [[(2%nat, 7500%Z); (4%nat, 7500%Z)]; [(0%nat, 0%Z)]]
           Sample.table [7; 7; 7; 7; 7; 7; 7]%Z).
  - reflexivity.
  - apply perm_swap.
  - repeat (constructor; [simpl; lia|]). constructor.
  - reflexivity.
Defined.


(** X8 on the sample: the run succeeds, and so every task returns, the
    labels are 64-bit integers and the writer has taken the document. *)
Lemma run_succeeds_iff_witness :
  raised (Sample.run_of Sample.star []) = None /\
  exists results,
    Forall2 (fun mic res =>
               process_particle_icethickness 53 1024 Sample.load_img
                 Sample.ice_grouper
                 (with_labels (repeat (-1)%Z 7) Sample.table)
                 (snd (get_unique_micrographs Sample.names)) Sample.args mic
               = Ok res)
            (fst (get_unique_micrographs Sample.names)) results /\
    forallb (fun kv : nat * Z => int64 (snd kv)) (List.concat results)
      = true /\
    Sample.starfile_write
      (dict_set "particles"%string
         (with_labels
            (assign_all (List.concat results) (repeat (-1)%Z 7)) Sample.table)
         Sample.star)
      (output_star Sample.args) = Ok tt.
Proof.
  destruct (@run_succeeds_iff 53 1024 string Sample.load_img
              Sample.ice_grouper Sample.starfile_write Sample.args
              Sample.star Sample.table Sample.names eq_refl eq_refl []
              sample_well_formed sample_several_blocks)
    as [[Hall _] _].
  split; [vm_compute; reflexivity|].
  destruct Hall as [_ [results [Hres [_ [Hi Hw]]]]];
    [vm_compute; reflexivity|].
  exists results. repeat split; assumption.
Defined.

(** X8 on an output path the writer refuses: the tasks return as before
    and the run ends on the exception of the writer, without a file. *)
Lemma run_succeeds_iff_unwritable :
  raised (sample_main Sample.args_unwritable Sample.star []) = Some OSError /\
  written (sample_main Sample.args_unwritable Sample.star []) = [].
Proof. split; vm_compute; reflexivity. Qed.


(** X10 on the sample: two tasks for seven particles. *)
Lemma every_micrograph_submitted_once_witness :
  StronglySorted str_lt (submitted (Sample.run_of Sample.star [])) /\
  forall mic,
    count_occ string_dec (submitted (Sample.run_of Sample.star [])) mic =
    if in_dec string_dec mic Sample.names then 1%nat else 0%nat.
Proof.
  apply (@every_micrograph_submitted_once 53 1024 string Sample.load_img
           Sample.ice_grouper Sample.starfile_write Sample.args Sample.star
           Sample.table Sample.names eq_refl eq_refl []).
  simpl. lia.
Defined.

(** X11 on a file that holds an optics block and a block of another
    name. *)
Lemma missing_particles_block_witness :
  Sample.run_of [("optics"%string, Sample.optics);
                 ("micrographs"%string, Sample.table)] []
    = stopped [] [] KeyError /\
  exit_status (Sample.run_of [("optics"%string, Sample.optics);
                              ("micrographs"%string, Sample.table)] [])
    = 1%Z.
Proof.
  apply (@missing_particles_block 53 1024 string Sample.load_img
           Sample.ice_grouper Sample.starfile_write Sample.args
           [("optics"%string, Sample.optics);
            ("micrographs"%string, Sample.table)] []).
  reflexivity.
Defined.

(** X12 on a file with an optics block and a particle table that has the
    identifier column and no row; the reader gives a column without
    cells the type of floats. *)
Lemma empty_table_run_witness :
  Sample.run_of
    [("optics"%string, Sample.optics);
     ("particles"%string,
      {| index := 0;
         columns := [("rlnMicrographName"%string, FloatCol [])] |})] [] =
  {| stdout := [];
     submitted := [];
     written :=
       [(output_star Sample.args,
         [("optics"%string, Sample.optics);
          ("particles"%string,
           {| index := 0;
              columns := [("rlnMicrographName"%string, FloatCol []);
                          ("ibIceGroup"%string, IntCol [])] |})])];
     raised := None |}.
Proof.
  apply (@empty_table_run 53 1024 string Sample.load_img Sample.ice_grouper
           Sample.starfile_write Sample.args
           [("optics"%string, Sample.optics);
            ("particles"%string,
             {| index := 0;
                columns := [("rlnMicrographName"%string, FloatCol [])] |})]
           []
           {| index := 0;
              columns := [("rlnMicrographName"%string, FloatCol [])] |}
           (FloatCol []) eq_refl eq_refl).
  - right. left. reflexivity.
  - unfold several_blocks. simpl. lia.
  - simpl. lia.
  - reflexivity.
Defined.

(** X14 on the sample, with a segmentation that counts the images of its
    process: two workers, the chunks coming in the other way round and
    the set iterated in reverse. *)
Lemma workers_run_is_scheduled_run_witness :
  exists choices',
    main_workers 53 1024 Sample.load_img_w Sample.ice_grouper_counting
      Sample.starfile_write 0%nat (fun l => rev (py_set l))
      [0; 1]%nat [1]%nat Sample.args Sample.star =
    sample_main Sample.args Sample.star choices'.
Proof.
  apply (@workers_run_is_scheduled_run 53 1024 string nat Sample.load_img
           Sample.ice_grouper Sample.starfile_write Sample.load_img_w
           Sample.ice_grouper_counting
           (fun _ _ => eq_refl) (fun _ _ _ _ _ => eq_refl)
           0%nat (fun l => rev (py_set l)) [0; 1]%nat [1]%nat
           Sample.args Sample.star).
  intros l. apply Permutation_rev.
Defined.
